(** * title.py: inferring a document title from a PDF's first page

    A shallow embedding of [title.py] and the properties of its sanitizer,
    largest-text tracker, figure reconstructor, layout pipeline and strategy
    orchestrator.

    Conventions of the embedding:
    - a Python [str] is the list of its code points ([N]); literals are
      written [py "..."];
    - a Python [float] is a binary64 number ([PrimFloat.float]); the integer
      [0] the source starts its accumulators with is the float [0], which is
      what every operation of the source turns it into;
    - a function that can raise returns a [result];
    - what the program obtains from outside (the pdfminer document, the
      [pdftotext] process, the Unicode tables behind [unidecode] and
      [str.lower]) is a parameter. *)

From Stdlib Require Import String Ascii.
From Stdlib Require Import ZArith NArith List Bool Lia Floats.
Import ListNotations.

Set Warnings "-inexact-float,-register-all".

(** ** Python strings *)

Module Py.

Definition str := list N.

Definition py (s : string) : str :=
  List.map N_of_ascii (list_ascii_of_string s).

Definition ch (a : ascii) : N := N_of_ascii a.

Arguments py s%_string.
Arguments ch a%_char.

Definition in_range (lo hi c : N) : bool := (lo <=? c)%N && (c <=? hi)%N.

(** [str.isspace] on one character (the characters of bidirectional type
    WS, B or S, or of category Zs). *)
Definition isspace (c : N) : bool :=
  in_range 9 13 c || in_range 28 32 c || (c =? 133)%N || (c =? 160)%N
  || (c =? 5760)%N || in_range 8192 8202 c || (c =? 8232)%N || (c =? 8233)%N
  || (c =? 8239)%N || (c =? 8287)%N || (c =? 12288)%N.

Fixpoint lstrip (s : str) : str :=
  match s with
  | c :: s' => if isspace c then lstrip s' else s
  | [] => []
  end.

Definition rstrip (s : str) : str := rev (lstrip (rev s)).

(** [s.strip()] *)
Definition strip (s : str) : str := rstrip (lstrip s).

(** [s.split(sep)] for a one-character separator: never empty. *)
Fixpoint split (sep : N) (s : str) : list str :=
  match s with
  | [] => [[]]
  | c :: s' =>
      if (c =? sep)%N then [] :: split sep s'
      else match split sep s' with
           | w :: ws => (c :: w) :: ws
           | [] => [[c]]
           end
  end.

(** [sep.join(words)] *)
Fixpoint join (sep : str) (words : list str) : str :=
  match words with
  | [] => []
  | [w] => w
  | w :: ws => w ++ sep ++ join sep ws
  end.

(** [xs[i:j]] for non-negative bounds. *)
Definition slice {A} (i j : nat) (xs : list A) : list A :=
  firstn (j - i) (skipn i xs).

Definition is_ascii (c : N) : bool := (c <? 128)%N.

Definition ascii_uppercase (c : N) : bool := in_range 65 90 c.
Definition ascii_lowercase (c : N) : bool := in_range 97 122 c.
Definition digit (c : N) : bool := in_range 48 57 c.

(** [c in string.ascii_letters] *)
Definition ascii_letters (c : N) : bool := ascii_lowercase c || ascii_uppercase c.

Definition mem (c : N) (s : str) : bool := existsb (N.eqb c) s.

Fixpoint str_eqb (a b : str) : bool :=
  match a, b with
  | [], [] => true
  | x :: a', y :: b' => (x =? y)%N && str_eqb a' b'
  | _, _ => false
  end.

(** [s.rfind(c)], as [None] for -1. *)
Fixpoint rfind_from (i : nat) (last : option nat) (c : N) (s : str)
    : option nat :=
  match s with
  | [] => last
  | x :: s' => rfind_from (S i) (if (x =? c)%N then Some i else last) c s'
  end.

Definition rfind (c : N) (s : str) : option nat := rfind_from 0 None c s.

(** The number of occurrences of a character, [s.count(c)]. *)
Definition count (c : N) (s : str) : nat := length (filter (N.eqb c) s).

End Py.
Import Py.

Definition SPACE : N := 32.
Definition TAB : N := 9.
Definition NEWLINE : N := 10.
Definition DOT : N := 46.
Definition COMMA : N := 44.
Definition COLON : N := 58.
Definition DASH : N := 45.
Definition SLASH : N := 47.

(** ** Exceptions *)

Inductive exn :=
| FileNotFoundError
| PDFSyntaxError
| TypeError
| KeyError
| UnicodeEncodeError.

Inductive result (A : Type) :=
| Ok (a : A)
| Raise (e : exn).
Arguments Ok {A} a.
Arguments Raise {A} e.

Definition bind {A B} (r : result A) (k : A -> result B) : result B :=
  match r with
  | Ok a => k a
  | Raise e => Raise e
  end.

Notation "x <- r ;; k" := (bind r (fun x => k))
  (at level 61, r at next level, right associativity).

(** [try: body except Exception: pass], then [rest]. *)
Definition try_except {A} (body : result (option A)) (rest : result A) : result A :=
  match body with
  | Ok (Some a) => Ok a
  | Ok None => rest
  | Raise _ => rest
  end.

(** ** Constants *)

Definition MIN_CHARS : nat := 6.
Definition MAX_WORDS : nat := 20.
Definition MAX_CHARS : nat := MAX_WORDS * 10.
Definition TOLERANCE : float := 1e-06.

(** ** Regular-expression substitutions of the source

    Each [re.sub] of the source is written out as the function it computes
    under Python's leftmost, non-overlapping replacement. *)

(** [re.sub(r'\n$', ' ', line)]: [$] holds at the end of the string and just
    before a newline that ends it. *)
Fixpoint sub_final_newline (line : str) : str :=
  match line with
  | [] => []
  | c :: rest =>
      if (c =? NEWLINE)%N && (str_eqb rest [] || str_eqb rest [NEWLINE])
      then SPACE :: sub_final_newline rest
      else c :: sub_final_newline rest
  end.

(** [re.sub(c, '', s)] for a character class [c]. *)
Definition remove_chars (c : N -> bool) (s : str) : str :=
  filter (fun x => negb (c x)) s.

(** ** Largest-text tracker *)

Local Open Scope float_scope.

Record LargestText := {
  contents : str;
  y0 : float;
  size : float
}.

Definition initial_largest_text : LargestText :=
  {| contents := []; y0 := 0; size := 0 |}.

(** The builtin [max] of two numbers: the second only when it is greater. *)
Definition py_max (a b : float) : float := if a <? b then b else a.

Definition is_close (a b : float) : bool :=
  abs (a - b) <=? TOLERANCE * py_max (abs a) (abs b).

Definition update_largest_text (line : str) (y0' size' : float)
    (largest_text : LargestText) : LargestText :=
  if (size' =? size largest_text) && (size largest_text =? 0)
     && (y0' - y0 largest_text <? - TOLERANCE)
  then largest_text
  else
    let line := sub_final_newline line in
    if TOLERANCE <? size' - size largest_text then
      {| contents := line; y0 := y0'; size := size' |}
    else if is_close size' (size largest_text) then
      {| contents := contents largest_text ++ line;
         y0 := y0';
         size := size largest_text |}
    else largest_text.

(** A scan: the updates applied in order. *)
Record Update := { u_line : str; u_y0 : float; u_size : float }.

Definition apply_update (st : LargestText) (u : Update) : LargestText :=
  update_largest_text (u_line u) (u_y0 u) (u_size u) st.

Definition scan (us : list Update) (st : LargestText) : LargestText :=
  fold_left apply_update us st.

(** A number that is not NaN: it equals itself. *)
Definition not_nan (a : float) : Prop := (a =? a) = true.

(** A finite or infinite number above zero, in the specification's terms. *)
Definition is_positive (x : spec_float) : bool :=
  match x with
  | S754_infinity false | S754_finite false _ _ => true
  | _ => false
  end.

Local Close Scope float_scope.

(** ** Sanitizer *)

(** [re.sub(r',', ' ', s)] *)
Definition sub_comma (s : str) : str :=
  map (fun c => if (c =? COMMA)%N then SPACE else c) s.

(** [re.sub(r': ', ' - ', s)] *)
Fixpoint sub_colon_space (s : str) : str :=
  match s with
  | [] => []
  | c :: rest =>
      match rest with
      | d :: rest' =>
          if (c =? COLON)%N && (d =? SPACE)%N
          then SPACE :: DASH :: SPACE :: sub_colon_space rest'
          else c :: sub_colon_space rest
      | [] => [c]
      end
  end.

(** Whether [s] is [.pdf] one or more times up to the place where [$] holds;
    the result is what follows that place (nothing, or the final newline). *)
Fixpoint pdf_run (s : str) : option str :=
  match s with
  | a :: b :: c :: d :: rest =>
      if (a =? DOT)%N && (b =? ch "p")%N && (c =? ch "d")%N && (d =? ch "f")%N
      then if str_eqb rest [] || str_eqb rest [NEWLINE] then Some rest
           else pdf_run rest
      else None
  | _ => None
  end.

(** [re.sub(r'\.pdf(\.pdf)*$', '', s)] *)
Fixpoint sub_pdf_suffix (s : str) : str :=
  match s with
  | [] => []
  | c :: rest =>
      match pdf_run s with
      | Some tail => tail
      | None => c :: sub_pdf_suffix rest
      end
  end.

Definition blank (c : N) : bool := (c =? SPACE)%N || (c =? TAB)%N.

Fixpoint collapse_blanks_from (in_run : bool) (s : str) : str :=
  match s with
  | [] => []
  | c :: rest =>
      if blank c
      then if in_run then collapse_blanks_from true rest
           else SPACE :: collapse_blanks_from true rest
      else c :: collapse_blanks_from false rest
  end.

(** [re.sub(r'[ \t][ \t]*', ' ', s)] *)
Definition collapse_blanks (s : str) : str := collapse_blanks_from false s.

(** [c in valid_chars], for
    [valid_chars = "-_.() %s%s" % (string.ascii_letters, string.digits)]. *)
Definition valid_char (c : N) : bool :=
  mem c (py "-_.() ") || ascii_letters c || digit c.

Definition is_surrogate (c : N) : bool := in_range 55296 57343 c.

(** [s.encode('utf-8').decode('utf-8')]: the encoder refuses lone
    surrogates with [UnicodeEncodeError], which [except UnicodeDecodeError]
    does not catch. *)
Definition utf8_round_trip (s : str) : result str :=
  if existsb is_surrogate s then Raise UnicodeEncodeError else Ok s.

(** The first [MAX_WORDS] words, then the first [MAX_CHARS] characters. *)
Definition truncate (filename : str) : str :=
  let words := split SPACE filename in
  let filename := join [SPACE] (firstn MAX_WORDS words) in
  if (MAX_CHARS <? length filename)%nat then firstn MAX_CHARS filename
  else filename.

Section Sanitize.

(** [unidecode]'s replacement for a character that is not ASCII (the
    package's tables). *)
Variable translit : N -> str.

(** [unidecode.unidecode]: ASCII passes unchanged, any other character is
    replaced by its table entry. *)
Definition unidecode (s : str) : str :=
  flat_map (fun c => if is_ascii c then [c] else translit c) s.

Definition sanitize (filename : str) : result str :=
  let filename := truncate filename in
  filename <- utf8_round_trip filename ;;
  let filename := unidecode filename in
  let filename := sub_comma filename in
  let filename := sub_colon_space filename in
  let filename := sub_pdf_suffix filename in
  let filename := collapse_blanks filename in
  Ok (filter valid_char filename).

End Sanitize.

(** Two spaces side by side somewhere in [s]. *)
Fixpoint adjacent_spaces (s : str) : bool :=
  match s with
  | [] => false
  | c :: rest =>
      match rest with
      | d :: _ => (c =? SPACE)%N && (d =? SPACE)%N || adjacent_spaces rest
      | [] => false
      end
  end.

(** [s.endswith('.pdf')] *)
Fixpoint ends_with_pdf (s : str) : bool :=
  match s with
  | [] => false
  | _ :: rest => str_eqb s (py ".pdf") || ends_with_pdf rest
  end.

(** [s.split()]: the words between runs of whitespace. *)
Fixpoint split_whitespace_from (word : str) (s : str) : list str :=
  match s with
  | [] => match word with
          | [] => []
          | _ => [word]
          end
  | c :: rest =>
      if isspace c
      then match word with
           | [] => split_whitespace_from [] rest
           | _ => word :: split_whitespace_from [] rest
           end
      else split_whitespace_from (word ++ [c]) rest
  end.

Definition split_whitespace (s : str) : list str := split_whitespace_from [] s.


(** ** Regular-expression searches

    The patterns of [junk_line] are only searched for, so they are kept as
    expressions and matched by derivatives. *)

Module Re.

Inductive regex :=
| Void
| Eps
| Cls (p : N -> bool)
| Cat (a b : regex)
| Alt (a b : regex)
| Star (a : regex).

Fixpoint nullable (r : regex) : bool :=
  match r with
  | Void => false
  | Eps => true
  | Cls _ => false
  | Cat a b => nullable a && nullable b
  | Alt a b => nullable a || nullable b
  | Star _ => true
  end.

Definition mk_cat (a b : regex) : regex :=
  match a, b with
  | Void, _ | _, Void => Void
  | Eps, _ => b
  | _, _ => Cat a b
  end.

Definition mk_alt (a b : regex) : regex :=
  match a, b with
  | Void, _ => b
  | _, Void => a
  | _, _ => Alt a b
  end.

Fixpoint deriv (c : N) (r : regex) : regex :=
  match r with
  | Void | Eps => Void
  | Cls p => if p c then Eps else Void
  | Cat a b =>
      if nullable a then mk_alt (mk_cat (deriv c a) b) (deriv c b)
      else mk_cat (deriv c a) b
  | Alt a b => mk_alt (deriv c a) (deriv c b)
  | Star a => mk_cat (deriv c a) (Star a)
  end.

Fixpoint fullmatch (r : regex) (s : str) : bool :=
  match s with
  | [] => nullable r
  | c :: s' => fullmatch (deriv c r) s'
  end.

Definition lit (s : str) : regex :=
  fold_right (fun c r => Cat (Cls (N.eqb c)) r) Eps s.

Definition word (s : string) : regex := lit (py s).
Definition any : regex := Cls (fun _ => true).
Definition dot : regex := Cls (fun c => negb (c =? NEWLINE)%N).
Definition plus (a : regex) : regex := Cat a (Star a).
Definition opt (a : regex) : regex := Alt a Eps.
Definition alts (l : list regex) : regex := fold_right Alt Void l.
Definition seq (l : list regex) : regex := fold_right Cat Eps l.

(** [re.search(r, s)] for a pattern without anchors. *)
Definition search (r : regex) (s : str) : bool :=
  fullmatch (Cat (Star any) (Cat r (Star any))) s.

(** [re.search('^r$', s)]: [$] also holds before a final newline. *)
Definition search_anchored (r : regex) (s : str) : bool :=
  fullmatch (Cat r (opt (Cls (N.eqb NEWLINE)))) s.

End Re.

(** ** Junk-line classifier *)

(** [\s] *)
Definition ws : Re.regex := Re.Cls isspace.

(** [^[0-9 \t-]+(abstract|introduction)?\s+$] *)
Definition placeholder_numbered : Re.regex :=
  Re.seq [ Re.plus (Re.Cls (fun c => digit c || blank c || (c =? DASH)%N));
           Re.opt (Re.alts [Re.word "abstract"; Re.word "introduction"]);
           Re.plus ws ].

(** [^(abstract|unknown|title|untitled):?$] *)
Definition placeholder_word : Re.regex :=
  Re.seq [ Re.alts [Re.word "abstract"; Re.word "unknown"; Re.word "title";
                    Re.word "untitled"];
           Re.opt (Re.Cls (N.eqb COLON)) ].

Definition copyright_info : Re.regex :=
  Re.alts
    [ Re.seq [Re.word "paper"; Re.plus ws; Re.word "title"];
      Re.seq [Re.word "technical"; Re.plus ws; Re.word "report"];
      Re.word "proceedings";
      Re.word "preprint";
      Re.seq [Re.word "to"; Re.plus ws; Re.word "appear"];
      Re.word "submission";
      Re.seq [Re.alts [Re.word "integrated"; Re.word "international"];
              Re.Star Re.dot; Re.word "conference"];
      Re.seq [Re.word "transactions"; Re.plus ws; Re.word "on"];
      Re.seq [Re.word "symposium"; Re.plus ws; Re.word "on"];
      Re.seq [Re.word "downloaded"; Re.plus ws; Re.word "from"; Re.plus ws;
              Re.word "http"] ].

Definition empty_str (s : str) : bool := (length (strip s) =? 0)%nat.

Section Junk.

(** [str.lower] on a string that is not all ASCII (the Unicode case
    mapping). *)
Variable unicode_lower : str -> str.

Definition lower (s : str) : str :=
  if forallb is_ascii s
  then map (fun c => if ascii_uppercase c then (c + 32)%N else c) s
  else unicode_lower s.

Definition junk_line (line : str) : bool :=
  let too_small := (length (strip line) <? MIN_CHARS)%nat in
  let is_placeholder_text :=
    Re.search_anchored placeholder_numbered (lower (strip line))
    || Re.search_anchored placeholder_word (lower (strip line)) in
  let is_copyright_info := Re.search copyright_info (lower line) in
  let stripped_to_ascii := filter ascii_letters (strip line) in
  let ascii_length := length stripped_to_ascii in
  let stripped_to_chars :=
    remove_chars (fun c => blank c || (c =? NEWLINE)%N) (strip line) in
  let chars_length := length stripped_to_chars in
  let is_serial_number := (2 * ascii_length <? chars_length)%nat in
  too_small || is_placeholder_text || is_copyright_info || is_serial_number.

End Junk.

(** ** Paths ([os.path] on POSIX) *)

Definition index_of (o : option nat) : Z :=
  match o with
  | Some i => Z.of_nat i
  | None => (-1)%Z
  end.

(** [os.path.splitext]: the extension starts at the last dot of the last
    component, unless that component has only dots before it. *)
Definition splitext (p : str) : str * str :=
  let sepIndex := index_of (rfind SLASH p) in
  let dotIndex := index_of (rfind DOT p) in
  if (sepIndex <? dotIndex)%Z
     && existsb (fun c => negb (c =? DOT)%N)
          (slice (Z.to_nat (sepIndex + 1)) (Z.to_nat dotIndex) p)
  then (firstn (Z.to_nat dotIndex) p, skipn (Z.to_nat dotIndex) p)
  else (p, []).

(** [os.path.basename] *)
Definition basename (p : str) : str :=
  skipn (Z.to_nat (index_of (rfind SLASH p) + 1)) p.

(** ** Values whose type the program does not fix *)

Inductive pyval :=
| PyStr (s : str)
| PyBytes (b : str).

(** ** Document metadata *)

(** What pdfminer keeps of an Info dictionary: a [dict]. *)
Definition dict := list (str * pyval).

(** The attributes of a [dict] object, [dir({})]. *)
Definition dict_attributes : list str :=
  map py
    [ "__class__"; "__class_getitem__"; "__contains__"; "__delattr__";
      "__delitem__"; "__dir__"; "__doc__"; "__eq__"; "__format__"; "__ge__";
      "__getattribute__"; "__getitem__"; "__getstate__"; "__gt__";
      "__hash__"; "__init__"; "__init_subclass__"; "__ior__"; "__iter__";
      "__le__"; "__len__"; "__lt__"; "__ne__"; "__new__"; "__or__";
      "__reduce__"; "__reduce_ex__"; "__repr__"; "__reversed__"; "__ror__";
      "__setattr__"; "__setitem__"; "__sizeof__"; "__str__";
      "__subclasshook__"; "clear"; "copy"; "fromkeys"; "get"; "items";
      "keys"; "pop"; "popitem"; "setdefault"; "update"; "values" ]%string.

(** [hasattr(meta, name)] for a [dict]: an attribute of the object, not a
    key of the mapping. *)
Definition hasattr (meta : dict) (name : str) : bool :=
  existsb (str_eqb name) dict_attributes.

(** [key in meta] *)
Definition has_key (meta : dict) (key : str) : bool :=
  existsb (fun kv => str_eqb key (fst kv)) meta.

(** [meta[key]] *)
Definition getitem (meta : dict) (key : str) : result pyval :=
  match find (fun kv => str_eqb key (fst kv)) meta with
  | Some kv => Ok (snd kv)
  | None => Raise KeyError
  end.

Fixpoint meta_title_loop (docinfo : list dict) : result pyval :=
  match docinfo with
  | [] => Ok (PyStr [])
  | meta :: rest =>
      if hasattr meta (py "title") then getitem meta (py "title")
      else if hasattr meta (py "Title") then getitem meta (py "Title")
      else if hasattr meta (py "TITLE") then getitem meta (py "TITLE")
      else meta_title_loop rest
  end.

(** The body of [meta_title] once [docinfo] is read. *)
Definition meta_title_of (docinfo : option (list dict)) : result pyval :=
  match docinfo with
  | None => Ok (PyStr [])
  | Some docinfo => meta_title_loop docinfo
  end.

(** ** Layout objects *)

Inductive LTObj :=
| LTChar (text : str) (x0 x1 y0 size : float)
| LTAnno (text : str)
| LTTextLine (children : list LTObj)
| LTTextBox (children : list LTObj)
| LTFigure (children : list LTObj)
| LTOther.

(** [obj.get_text()] *)
Fixpoint get_text (obj : LTObj) : str :=
  match obj with
  | LTChar text _ _ _ _ => text
  | LTAnno text => text
  | LTTextLine children => concat (map get_text children)
  | LTTextBox children => concat (map get_text children)
  | LTFigure _ => []
  | LTOther => []
  end.

Definition children_of (obj : LTObj) : list LTObj :=
  match obj with
  | LTTextLine children | LTTextBox children | LTFigure children => children
  | _ => []
  end.

(** ** Grouped-text extractor *)

(** The inner loop of [extract_largest_text]: the first [LTChar] of the
    line at an index above 1 feeds the tracker, then [break]. *)
Fixpoint extract_line (line_text : str) (j : nat) (line : list LTObj)
    (largest_text : LargestText) : LargestText :=
  match line with
  | [] => largest_text
  | child2 :: rest =>
      match child2 with
      | LTChar _ _ _ y0' size' =>
          if (1 <? j)%nat
          then update_largest_text line_text y0' size' largest_text
          else extract_line line_text (S j) rest largest_text
      | _ => extract_line line_text (S j) rest largest_text
      end
  end.

Fixpoint extract_children (obj_text : str) (i : nat) (children : list LTObj)
    (largest_text : LargestText) : LargestText :=
  match children with
  | [] => largest_text
  | child :: rest =>
      match child with
      | LTTextLine line =>
          extract_children obj_text (S i) rest
            (extract_line (get_text child) 0 line largest_text)
      | LTChar _ _ _ y0' size' =>
          if (1 <? i)%nat
          then update_largest_text obj_text y0' size' largest_text
          else extract_children obj_text (S i) rest largest_text
      | _ => extract_children obj_text (S i) rest largest_text
      end
  end.

Definition extract_largest_text (obj : LTObj) (largest_text : LargestText)
    : LargestText :=
  extract_children (get_text obj) 0 (children_of obj) largest_text.

(** ** Figure reconstructor *)

Local Open Scope float_scope.

Inductive ParsingState := INIT_X | INIT_D | INSIDE_WORD.

Definition inside_word (s : ParsingState) : bool :=
  match s with
  | INSIDE_WORD => true
  | _ => false
  end.

(** The local variables of [extract_figure_text]. *)
Record FigureScan := {
  f_largest_text : LargestText;
  f_text : str;
  f_line : str;
  f_y0 : float;
  f_size : float;
  f_char_distance : float;
  f_char_previous_x1 : float;
  f_state : ParsingState
}.

Definition figure_start (largest_text : LargestText) : FigureScan :=
  {| f_largest_text := largest_text;
     f_text := [];
     f_line := [];
     f_y0 := 0;
     f_size := 0;
     f_char_distance := 0;
     f_char_previous_x1 := 0;
     f_state := INIT_X |}.

(** The rest of an iteration, from the test [char_size != size] on, once
    the text of the glyph has been encoded and transliterated. *)
Definition figure_advance (st : FigureScan) (child : LTObj) : FigureScan :=
  match child with
  | LTChar char_text x0 x1 char_y0 char_size =>
      if negb (char_size =? f_size st) then
        (* A new line was detected *)
        {| f_largest_text :=
             update_largest_text (f_line st) (f_y0 st) (f_size st)
               (f_largest_text st);
           f_text := f_text st ++ f_line st ++ [NEWLINE];
           f_line := char_text;
           f_y0 := char_y0;
           f_size := char_size;
           f_char_distance := f_char_distance st;
           f_char_previous_x1 := x1;
           f_state := INIT_D |}
      else
        let char_current_distance := abs (x0 - f_char_previous_x1 st) in
        (* Initialization *)
        let '(previous_x1, char_distance, state) :=
          match f_state st with
          | INIT_X => (x1, f_char_distance st, INIT_D)
          | INIT_D =>
              let d := f_char_distance st in
              let d := if (0 <? d) && (char_current_distance <? d * 2.5)
                       then char_current_distance else d in
              let d := if d <? 0.1 then 0.1 else d in
              (f_char_previous_x1 st, d, INSIDE_WORD)
          | INSIDE_WORD =>
              (f_char_previous_x1 st, f_char_distance st, INSIDE_WORD)
          end in
        let '(line, previous_x1, char_distance, state) :=
          if inside_word state && (x1 <? previous_x1) then
            (* the x-position decreased: a new line *)
            (f_line st ++ [SPACE], x1, char_distance, INIT_D)
          else if inside_word state
                  && (char_distance * 8.5 <? char_current_distance) then
            (* a large enough distance: a space *)
            (f_line st ++ [SPACE], x1, char_distance, state)
          else if inside_word state
                  && (char_distance <? char_current_distance)
                  && (char_current_distance <? char_distance * 2.5) then
            (f_line st, x1, char_current_distance, state)
          else
            (f_line st, x1, char_distance, state) in
        {| f_largest_text := f_largest_text st;
           f_text := f_text st;
           f_line := if negb (empty_str char_text) then line ++ char_text
                     else line;
           f_y0 := f_y0 st;
           f_size := f_size st;
           f_char_distance := char_distance;
           f_char_previous_x1 := previous_x1;
           f_state := state |}
  | _ => st
  end.

(** A loop whose body can raise: the first exception ends it. *)
Fixpoint fold_result {A B} (f : A -> B -> result A) (l : list B) (a : A)
    : result A :=
  match l with
  | [] => Ok a
  | b :: rest => a' <- f a b ;; fold_result f rest a'
  end.

(** One iteration of the loop over the figure's children: a child that is
    no glyph is skipped; the text of a glyph is first encoded to UTF-8 for
    [unidecode], which raises on a lone surrogate, outside any [try]. *)
Definition figure_step (st : FigureScan) (child : LTObj) : result FigureScan :=
  match child with
  | LTChar char_text _ _ _ _ =>
      decoded_char_text <- utf8_round_trip char_text ;;
      Ok (figure_advance st child)
  | _ => Ok st
  end.

Definition figure_loop (children : list LTObj) (largest_text : LargestText)
    : result FigureScan :=
  fold_result figure_step children (figure_start largest_text).

(** [extract_figure_text]: what is returned after the loop. *)
Definition extract_figure_text (children : list LTObj)
    (largest_text : LargestText) : result (LargestText * str) :=
  st <- figure_loop children largest_text ;;
  Ok (f_largest_text st, f_text st).

Local Close Scope float_scope.

(** ** Layout pipeline *)

(** The length of [(cid:] followed by characters of [[0-9 \t-]] and [)] at
    the head of [s], when [s] starts so. *)
Fixpoint cid_body (s : str) : option nat :=
  match s with
  | c :: rest =>
      if (c =? ch ")")%N then Some 1
      else if digit c || blank c || (c =? DASH)%N
           then option_map S (cid_body rest)
           else None
  | [] => None
  end.

Definition cid_token (s : str) : option nat :=
  match s with
  | a :: b :: c :: d :: e :: rest =>
      if str_eqb [a; b; c; d; e] (py "(cid:")
      then option_map (Nat.add 5) (cid_body rest)
      else None
  | _ => None
  end.

Fixpoint strip_cid_from (skip : nat) (s : str) : str :=
  match s with
  | [] => []
  | c :: rest =>
      match skip with
      | S k => strip_cid_from k rest
      | O =>
          match cid_token s with
          | Some n => strip_cid_from (n - 1) rest
          | None => c :: strip_cid_from 0 rest
          end
      end
  end.

(** [re.sub(r'(\(cid:[0-9 \t-]*\))*', '', s)] *)
Definition strip_cid (s : str) : str := strip_cid_from 0 s.

(** The characters the body-text test counts. *)
Definition stripped_to_chars (text : str) : str :=
  remove_chars (fun c => blank c || (c =? NEWLINE)%N) (strip text).

(** One iteration of the loop over the page's layout objects. *)
Definition page_step (acc : LargestText * str) (lt_obj : LTObj)
    : result (LargestText * str) :=
  let '(largest_text, text) := acc in
  match lt_obj with
  | LTFigure children =>
      r <- extract_figure_text children largest_text ;;
      let '(largest_text, figure_text) := r in
      Ok (largest_text, text ++ figure_text)
  | LTTextBox _ | LTTextLine _ =>
      (* Ignore body text blocks *)
      if (MAX_CHARS * 2 <? length (stripped_to_chars (get_text lt_obj)))%nat
      then Ok acc
      else Ok (extract_largest_text lt_obj largest_text,
               text ++ get_text lt_obj ++ [NEWLINE])
  | _ => Ok acc
  end.

(** The body of [pdf_text] for the first page. *)
Definition page_text (layout : list LTObj) : result (LargestText * str) :=
  r <- fold_result page_step layout (initial_largest_text, []) ;;
  let '(largest_text, text) := r in
  Ok ({| contents := strip_cid (contents largest_text);
         y0 := y0 largest_text;
         size := size largest_text |}, text).

(** ** Line-window selector *)

Section Titles.

Variable unicode_lower : str -> str.

Fixpoint title_start_from (i : nat) (lines : list str) : option nat :=
  match lines with
  | [] => None
  | line :: rest =>
      if negb (empty_str line) && negb (junk_line unicode_lower line)
      then Some i
      else title_start_from (S i) rest
  end.

Definition title_start (lines : list str) : nat :=
  match title_start_from 0 lines with
  | Some i => i
  | None => 0
  end.

Fixpoint title_end_from (i : nat) (lines : list str) : option nat :=
  match lines with
  | [] => None
  | line :: rest =>
      if empty_str line then Some i else title_end_from (S i) rest
  end.

(** [title_end(lines, start)] with [max_lines = 2]. *)
Definition title_end (lines : list str) (start : nat) : nat :=
  match title_end_from (start + 1)
          (slice (start + 1) (start + 2 + 1) lines) with
  | Some i => i
  | None => start + 1
  end.

Definition title_window (lines : list str) : str :=
  let i := title_start lines in
  let j := title_end lines i in
  join [SPACE] (map strip (slice i j lines)).

(** The two substitutions that end [text_title] and [pdftotext_title]:
    [re.sub(r'\.', '', text)], then [re.sub(r'[\t\n]', '', text)]. *)
Definition strip_dots_and_whitespace (text : str) : str :=
  let text := remove_chars (N.eqb DOT) text in
  remove_chars (fun c => (c =? TAB)%N || (c =? NEWLINE)%N) text.

(** The body of [text_title] once [pdf_text] has returned a pair. *)
Definition text_title_of (largest_text : LargestText) (lines_joined : str)
    : str :=
  let text :=
    if empty_str (contents largest_text)
    then title_window (split NEWLINE (strip lines_joined))
    else strip (contents largest_text) in
  strip_dots_and_whitespace text.

(** ** Validation *)

(** [bytes.strip()] removes ASCII whitespace. *)
Definition bytes_isspace (c : N) : bool := in_range 9 13 c || (c =? 32)%N.

Definition valid_title_str (title : str) : bool :=
  negb (empty_str title) && negb (junk_line unicode_lower title)
  && empty_str (snd (splitext title)).

(** [valid_title]: on [bytes] that are not blank, [junk_line] applies a
    [str] pattern to them and raises. *)
Definition valid_title (title : pyval) : result bool :=
  match title with
  | PyStr s => Ok (valid_title_str s)
  | PyBytes b =>
      if forallb bytes_isspace b then Ok false else Raise TypeError
  end.

End Titles.

(** ** Strategy orchestrator *)

(** What the program gets from outside. *)
Record Env := {
  (** the table of [unidecode] *)
  env_translit : N -> str;
  (** [str.lower] beyond ASCII *)
  env_unicode_lower : str -> str;
  (** [PDFDocument(PDFParser(open(filename, 'rb'))).info] *)
  env_docinfo : str -> result (option (list dict));
  (** the layout of the first page, if the document has a page *)
  env_first_page : str -> result (option (list LTObj));
  (** the standard output of a shell command, as [communicate] returns it:
      [bytes] under Python 3 *)
  env_stdout : str -> pyval
}.

Section Orchestrator.

Variable E : Env.

Definition meta_title (filename : str) : result pyval :=
  docinfo <- env_docinfo E filename ;;
  meta_title_of docinfo.

(** [pdf_text]: [None] when the loop over the pages ends without a page. *)
Definition pdf_text (filename : str) : result (option (LargestText * str)) :=
  page <- env_first_page E filename ;;
  match page with
  | None => Ok None
  | Some layout => r <- page_text layout ;; Ok (Some r)
  end.

Definition text_title (filename : str) : result str :=
  r <- pdf_text filename ;;
  match r with
  | None => Raise TypeError
  | Some (largest_text, lines_joined) =>
      Ok (text_title_of (env_unicode_lower E) largest_text lines_joined)
  end.

(** [re.sub(' ', '\\ ', filename)] *)
Definition escape_spaces (filename : str) : str :=
  flat_map (fun c => if (c =? SPACE)%N then [ch "\"; SPACE] else [c]) filename.

(** The text of [pdftotext_title] once [out] is a [str]. *)
Definition pdftotext_title_of (out : str) : str :=
  strip_dots_and_whitespace
    (title_window (env_unicode_lower E) (split NEWLINE (strip out))).

(** [pdftotext_title]: [out.strip().split('\n')] raises on [bytes]. *)
Definition pdftotext_title (filename : str) : result str :=
  let command := py "pdftotext " ++ escape_spaces filename ++ py " -" in
  match env_stdout E command with
  | PyBytes _ => Raise TypeError
  | PyStr out => Ok (pdftotext_title_of out)
  end.

(** A strategy inside [try]: its title when valid, [None] to go on. *)
Definition candidate (title : result pyval) : result (option pyval) :=
  title <- title ;;
  valid <- valid_title (env_unicode_lower E) title ;;
  Ok (if valid then Some title else None).

Definition pdf_title (filename : str) : result pyval :=
  try_except (candidate (meta_title filename))
    (try_except
       (candidate (title <- text_title filename ;; Ok (PyStr title)))
       (title <- pdftotext_title filename ;;
        valid <- valid_title (env_unicode_lower E) (PyStr title) ;;
        if valid then Ok (PyStr title)
        else Ok (PyStr (basename (fst (splitext filename)))))).

(** The title the command line prints or renames to:
    [sanitize(' '.join(title.split()))]. *)
Definition main_title (filename : str) : result str :=
  title <- pdf_title filename ;;
  match title with
  | PyStr title =>
      sanitize (env_translit E) (join [SPACE] (split_whitespace title))
  | PyBytes _ => Raise TypeError
  end.

End Orchestrator.

(** ** Sample inputs *)

Local Open Scope float_scope.

(** A run of glyphs of one size on one baseline. *)
Definition glyphs (text : str) (y0' size' : float) : list LTObj :=
  map (fun c => LTChar [c] 0 0 y0' size') text.

(** A text block of 500 visible characters. *)
Definition block_of_500 : LTObj :=
  LTTextBox [LTTextLine (glyphs (repeat (ch "a") 500) 700 10)].

(** A figure that holds the single line [Hi]. *)
Definition figure_hi : list LTObj :=
  [LTChar (py "H") 10 18 700 12; LTChar (py "i") 18.5 21 700 12].

(** An Info dictionary with a title. *)
Definition info_with_title : dict :=
  [(py "Title", PyBytes (py "Attention Is All You Need"))].

Definition no_table : N -> str := fun _ => [].

(** One space-free word of 21 items. *)
Definition twenty_one_items : str :=
  py "a,a,a,a,a,a,a,a,a,a,a,a,a,a,a,a,a,a,a,a,a".

Definition twenty_one_words : str :=
  py "a a a a a a a a a a a a a a a a a a a a a".



(** Python 3 and a path that names no file: both pdfminer stages fail to
    open it and [pdftotext] prints nothing on its standard output. *)
Definition missing_file : Env :=
  {| env_translit := no_table;
     env_unicode_lower := fun s => s;
     env_docinfo := fun _ => Raise FileNotFoundError;
     env_first_page := fun _ => Raise FileNotFoundError;
     env_stdout := fun _ => PyBytes [] |}.

(** The same, where [communicate] yields text. *)
Definition missing_file_text : Env :=
  {| env_translit := no_table;
     env_unicode_lower := fun s => s;
     env_docinfo := fun _ => Raise FileNotFoundError;
     env_first_page := fun _ => Raise FileNotFoundError;
     env_stdout := fun _ => PyStr [] |}.

(** A document whose first page is one heading, and a [pdftotext] that
    prints it as text. *)
Definition heading_page : list LTObj :=
  [LTTextBox [LTTextLine (glyphs (py "Vol. 2: Parsing") 700 18 ++ [LTAnno [NEWLINE]])]].

Definition heading_document : Env :=
  {| env_translit := no_table;
     env_unicode_lower := fun s => s;
     env_docinfo := fun _ => Ok (Some []);
     env_first_page := fun _ => Ok (Some heading_page);
     env_stdout := fun _ => PyStr (py "Vol. 2: Parsing") |}.

Local Close Scope float_scope.

(** ** The order of binary64 numbers

    A number that is not NaN has a rank; the ranks compare as the numbers
    do. *)

Definition rank (x : spec_float) : Z * Z * Z :=
  match x with
  | S754_infinity true => (-2, 0, 0)%Z
  | S754_finite true m e => (-1, - e, Z.neg m)%Z
  | S754_zero _ => (0, 0, 0)%Z
  | S754_nan => (0, 0, 0)%Z
  | S754_finite false m e => (1, e, Z.pos m)%Z
  | S754_infinity false => (2, 0, 0)%Z
  end.

Definition lex_compare (a b : Z * Z * Z) : comparison :=
  let '(a1, a2, a3) := a in
  let '(b1, b2, b3) := b in
  match (a1 ?= b1)%Z with
  | Eq => match (a2 ?= b2)%Z with
          | Eq => (a3 ?= b3)%Z
          | c => c
          end
  | c => c
  end.

Definition lex_le (a b : Z * Z * Z) : Prop :=
  let '(a1, a2, a3) := a in
  let '(b1, b2, b3) := b in
  (a1 < b1 \/ (a1 = b1 /\ (a2 < b2 \/ (a2 = b2 /\ a3 <= b3))))%Z.

Definition lex_lt (a b : Z * Z * Z) : Prop :=
  let '(a1, a2, a3) := a in
  let '(b1, b2, b3) := b in
  (a1 < b1 \/ (a1 = b1 /\ (a2 < b2 \/ (a2 = b2 /\ a3 < b3))))%Z.

(** ** Comparing tracker states *)

(** The size of [b] is at least the size of [a] (and neither is NaN). *)
Definition tracker_le (a b : LargestText) : Prop :=
  PrimFloat.leb (size a) (size b) = true.

(** The part of [pdf_text]'s loop that [page_text] folds, from the initial
    state. *)
Definition page_scan (layout : list LTObj) : result (LargestText * str) :=
  fold_result page_step layout (initial_largest_text, []).

(** ** Glyphs among layout objects *)

Definition is_char (obj : LTObj) : bool :=
  match obj with
  | LTChar _ _ _ _ _ => true
  | _ => false
  end.

(** Whether [obj] is a glyph whose text holds a lone surrogate, which
    UTF-8 cannot encode. *)
Definition undecodable (obj : LTObj) : bool :=
  match obj with
  | LTChar text _ _ _ _ => existsb is_surrogate text
  | _ => false
  end.

(** Whether [obj], if a figure, holds no such glyph. *)
Definition decodable (obj : LTObj) : bool :=
  match obj with
  | LTFigure children => negb (existsb undecodable children)
  | _ => true
  end.

(** Whether [obj], if a glyph, has size zero. *)
Definition zero_sized (obj : LTObj) : bool :=
  match obj with
  | LTChar _ _ _ _ size' => PrimFloat.eqb size' 0
  | _ => true
  end.

(** The baseline and size of the first glyph of [line]. *)
Fixpoint first_glyph (line : list LTObj) : option (float * float) :=
  match line with
  | [] => None
  | LTChar _ _ _ y0' size' :: _ => Some (y0', size')
  | _ :: rest => first_glyph rest
  end.

(** What one line of a text box does to the tracker: one update, from the
    first glyph found at the third place or later, with the text of the
    whole line. *)
Definition line_update (st : LargestText) (line : list LTObj) : LargestText :=
  match first_glyph (skipn 2 line) with
  | Some (y0', size') =>
      update_largest_text (concat (map get_text line)) y0' size' st
  | None => st
  end.

(** A figure of three glyphs whose font size could not be read. *)
Definition zero_size_figure : list LTObj :=
  [LTChar (py "T") 10 18 700 0; LTChar (py "o") 18 24 700 0; LTAnno [SPACE];
   LTChar (py "p") 30 36 700 0]%float.

(** ** Lines that can start a title *)

(** The test of [title_start]: not blank and not junk. *)
Definition title_line (unicode_lower : str -> str) (line : str) : bool :=
  negb (empty_str line) && negb (junk_line unicode_lower line).

(** Whether the line after [i] joins the title: it is not blank and the
    line after it exists and is blank. *)
Definition second_line_joins (lines : list str) (i : nat) : bool :=
  negb (empty_str (nth (i + 1) lines []))
  && (i + 2 <? length lines)
  && empty_str (nth (i + 2) lines []).

(** ** Sample inputs, continued *)

(** A title without a Latin letter. *)
Definition cyrillic_title : str :=
  [1042; 1086; 1081; 1085; 1072; 32; 1080; 32; 1084; 1080; 1088]%N.

(** [E] with another answer to the metadata query. *)
Definition with_docinfo (E : Env)
    (docinfo : str -> result (option (list dict))) : Env :=
  {| env_translit := env_translit E;
     env_unicode_lower := env_unicode_lower E;
     env_docinfo := docinfo;
     env_first_page := env_first_page E;
     env_stdout := env_stdout E |}.


(** ** The command line: printing and renaming *)

Definition ends_with_slash (a : str) : bool :=
  match rev a with
  | c :: _ => (c =? SLASH)%N
  | [] => false
  end.

Definition starts_with_slash (b : str) : bool :=
  match b with
  | c :: _ => (c =? SLASH)%N
  | [] => false
  end.

(** [os.path.join(a, b)] *)
Definition path_join (a b : str) : str :=
  if starts_with_slash b then b
  else if (length a =? 0)%nat || ends_with_slash a then a ++ b
  else a ++ SLASH :: b.

(** [title.replace(" ", "_")] *)
Definition replace_spaces (title : str) : str :=
  map (fun c => if (c =? SPACE)%N then ch "_" else c) title.

(** The title of one file in the loop of the command line, with the flag
    [--underscore]. *)
Definition cli_title (E : Env) (underscore : bool) (filename : str)
    : result str :=
  title <- main_title E filename ;;
  Ok (if underscore then replace_spaces title else title).

(** [os.path.join(args.dist, title + ".pdf")] *)
Definition new_name (dist title : str) : str :=
  path_join dist (title ++ py ".pdf").

(** ** The spacing estimate of the figure reconstructor *)

(** While inside a word, the estimate of the distance between characters
    is a number and at least 0.1. *)
Definition spacing_calibrated (st : FigureScan) : Prop :=
  not_nan (f_char_distance st)
  /\ (f_state st = INSIDE_WORD ->
      PrimFloat.leb 0.1 (f_char_distance st) = true).

(** ** Classes of binary64 numbers *)

(** Zero, a positive finite number or plus infinity, as [abs] returns. *)
Definition non_negative (x : spec_float) : bool :=
  match x with
  | S754_zero false | S754_finite false _ _ | S754_infinity false => true
  | _ => false
  end.

(** ** The enumeration of parsing states *)

(** [d[key] = value] on a [dict] kept as its items in insertion order. *)
Fixpoint dict_set {V} (d : list (str * V)) (key : str) (value : V)
    : list (str * V) :=
  match d with
  | [] => [(key, value)]
  | (k, v) :: rest =>
      if str_eqb key k then (k, value) :: rest
      else (k, v) :: dict_set rest key value
  end.

(** [dict(pairs)] *)
Definition dict_of {V} (pairs : list (str * V)) : list (str * V) :=
  fold_left (fun d kv => dict_set d (fst kv) (snd kv)) pairs [].

(** [d.get(key)] *)
Fixpoint dict_get {V} (d : list (str * V)) (key : str) : option V :=
  match d with
  | [] => None
  | (k, v) :: rest => if str_eqb key k then Some v else dict_get rest key
  end.

(** [make_parsing_state] with the positional names [sequential] and the
    keyword arguments [named]: the attributes of the class it returns,
    [dict(zip(sequential, range(len(sequential))), **named)]. *)
Definition make_parsing_state (sequential : list str)
    (named : list (str * nat)) : list (str * nat) :=
  fold_left (fun d kv => dict_set d (fst kv) (snd kv)) named
    (dict_of (combine sequential (seq 0 (length sequential)))).

Definition CHAR_PARSING_STATE : list (str * nat) :=
  make_parsing_state [py "INIT_X"; py "INIT_D"; py "INSIDE_WORD"] [].

(** ** Sample inputs, the rest *)

(** A figure with a glyph whose text is a lone surrogate. *)
Definition surrogate_figure : list LTObj :=
  [LTChar (py "T") 10 18 700 0; LTChar [56448%N] 18 24 700 0]%float.




(** ** The text the substitutions work on *)


(** * Sanity checks of the embedding *)

Example junk_line_examples (lo : str -> str) :
  junk_line lo (py "Proceedings of the International Conference") = true
  /\ junk_line lo (py "A Fast Algorithm for Title Extraction") = false
  /\ junk_line lo (py "12345") = true
  /\ junk_line lo (py "Abstract") = true.
Proof. vm_compute. repeat split. Qed.

Example splitext_examples :
  splitext (py "a/b.c/foo.pdf") = (py "a/b.c/foo", py ".pdf")
  /\ splitext (py ".pdf") = (py ".pdf", [])
  /\ splitext (py "a.b/c") = (py "a.b/c", [])
  /\ basename (py "a/b/c.pdf") = py "c.pdf".
Proof. vm_compute. repeat split. Qed.

Example sanitize_example (translit : N -> str) :
  sanitize translit (py "Efficient Parsing: A Survey")
  = Ok (py "Efficient Parsing - A Survey").
Proof. vm_compute. reflexivity. Qed.

Example strip_cid_example :
  strip_cid (py "ab(cid:12)(cid:3 4)c(cid:x)") = py "abc(cid:x)".
Proof. vm_compute. reflexivity. Qed.

Example pdf_title_example :
  pdf_title heading_document (py "paper.pdf") = Ok (PyStr (py "Vol 2: Parsing")).
Proof. vm_compute. reflexivity. Qed.

(** * Properties *)

(** ** Binary64 comparisons

    What the tracker's tests say about the order of two floats, from the
    specification of the primitive operations. *)

Module F64.

Lemma digits2_pos_bounds (m : positive) :
  (2 ^ (Z.pos (digits2_pos m) - 1) <= Z.pos m < 2 ^ Z.pos (digits2_pos m))%Z.
Proof.
  induction m as [m IH | m IH |]; cbn [digits2_pos].
  - rewrite Pos2Z.inj_succ.
    replace (Z.succ (Z.pos (digits2_pos m)) - 1)%Z with (Z.succ (Z.pos (digits2_pos m) - 1))%Z by lia.
    rewrite !Z.pow_succ_r by lia. lia.
  - rewrite Pos2Z.inj_succ.
    replace (Z.succ (Z.pos (digits2_pos m)) - 1)%Z with (Z.succ (Z.pos (digits2_pos m) - 1))%Z by lia.
    rewrite !Z.pow_succ_r by lia. lia.
  - cbn. lia.
Qed.

Lemma iter_xO_value (m d : positive) :
  Z.pos (Pos.iter xO m d) = (Z.pos m * 2 ^ Z.pos d)%Z.
Proof.
  induction d as [| d IH] using Pos.peano_ind.
  - cbn. lia.
  - rewrite Pos.iter_succ, Pos2Z.inj_succ, Z.pow_succ_r by lia.
    rewrite Pos2Z.inj_xO, IH. lia.
Qed.

Lemma shl_align_value (m : positive) (e e' : Z) :
  (e' <= e)%Z ->
  Z.pos (fst (shl_align m e e')) = (Z.pos m * 2 ^ (e - e'))%Z.
Proof.
  intros Hle. unfold shl_align.
  destruct (e' - e)%Z as [| d | d] eqn:Hd; cbn [fst].
  - replace (e - e')%Z with 0%Z by lia. cbn. lia.
  - lia.
  - rewrite iter_xO_value. f_equal. f_equal. lia.
Qed.

Lemma binary_round_aux_sign (s : bool) (m e : Z) (l : location) :
  is_positive (binary_round_aux prec emax s m e l) = true -> s = false.
Proof.
  unfold binary_round_aux.
  destruct (shr_fexp prec emax m e l) as [mrs' e'].
  destruct (shr_fexp prec emax _ e' loc_Exact) as [mrs'' e''].
  destruct (shr_m mrs'') as [| p | p]; [| destruct (Z.leb e'' _) |];
    destruct s; cbn; congruence.
Qed.

Lemma binary_normalize_positive (m e : Z) (sz : bool) :
  is_positive (binary_normalize prec emax m e sz) = true -> (0 < m)%Z.
Proof.
  destruct m as [| p | p]; cbn [binary_normalize].
  - destruct sz; cbn; congruence.
  - lia.
  - unfold binary_round.
    destruct (shl_align p e _) as [mz ez].
    intros H. apply binary_round_aux_sign in H. discriminate.
Qed.

Lemma bounded_digits (m : positive) (e : Z) :
  bounded prec emax m e = true ->
  (Z.pos (digits2_pos m) <= 53 /\ -1074 <= e
   /\ (-1074 < e -> Z.pos (digits2_pos m) = 53))%Z.
Proof.
  unfold bounded, canonical_mantissa, fexp, emin, prec, emax.
  intros H. apply andb_prop in H. destruct H as [H _].
  apply Z.eqb_eq in H. lia.
Qed.

(** Mantissas of valid floats: a larger exponent is a larger magnitude. *)
Lemma bounded_exponent_order (mx my : positive) (ex ey : Z) :
  bounded prec emax mx ex = true -> bounded prec emax my ey = true ->
  (ex < ey)%Z -> (Z.pos mx < Z.pos my * 2 ^ (ey - ex))%Z.
Proof.
  intros Hx Hy Hlt.
  apply bounded_digits in Hx. apply bounded_digits in Hy.
  destruct Hx as (Hdx & Hex & _). destruct Hy as (_ & _ & Hdy).
  specialize (Hdy ltac:(lia)).
  pose proof (digits2_pos_bounds mx) as [_ Bx].
  pose proof (digits2_pos_bounds my) as [By _].
  rewrite Hdy in By.
  assert (Z.pos mx < 2 ^ 53)%Z.
  { eapply Z.lt_le_trans; [exact Bx|]. apply Z.pow_le_mono_r; lia. }
  assert (2 ^ 1 <= 2 ^ (ey - ex))%Z by (apply Z.pow_le_mono_r; lia).
  change (2 ^ (53 - 1))%Z with 4503599627370496%Z in By.
  change (2 ^ 53)%Z with 9007199254740992%Z in H.
  change (2 ^ 1)%Z with 2%Z in H0.
  nia.
Qed.

Lemma SFsub_positive (x y : spec_float) :
  valid_binary x = true -> valid_binary y = true ->
  is_positive (SF64sub x y) = true -> SFltb y x = true.
Proof.
  intros Vx Vy.
  destruct x as [sx | sx | | sx mx ex], y as [sy | sy | | sy my ey];
    try (cbn; congruence);
    try (destruct sx; cbn; congruence);
    try (destruct sy; cbn; congruence);
    try (destruct sx, sy; cbn; congruence).
  - unfold SF64sub, SFsub. intros H.
    apply binary_normalize_positive in H.
    cbn [valid_binary] in Vx, Vy.
    unfold SFltb, SFcompare.
    destruct sx, sy; cbn [cond_Zopp] in H; try reflexivity; try lia.
    + (* both negative *)
      destruct (Z.compare_spec ey ex) as [Heq | Hlt | Hgt].
      * subst ey. rewrite Z.min_id in H.
        rewrite !shl_align_value in H by lia.
        rewrite Z.sub_diag, Z.pow_0_r, !Z.mul_1_r in H.
        rewrite Pos.compare_cont_spec. cbn [Pos.switch_Eq].
        assert (Hc : (mx < my)%positive) by lia.
        apply Pos.compare_gt_iff in Hc. rewrite Hc. reflexivity.
      * exfalso. rewrite Z.min_r in H by lia.
        rewrite !shl_align_value in H by lia.
        rewrite Z.sub_diag, Z.pow_0_r, Z.mul_1_r in H.
        pose proof (bounded_exponent_order my mx ey ex Vy Vx Hlt). lia.
      * reflexivity.
    + (* both positive *)
      destruct (Z.compare_spec ey ex) as [Heq | Hlt | Hgt].
      * subst ey. rewrite Z.min_id in H.
        rewrite !shl_align_value in H by lia.
        rewrite Z.sub_diag, Z.pow_0_r, !Z.mul_1_r in H.
        rewrite Pos.compare_cont_spec. cbn [Pos.switch_Eq].
        assert (Hc : (my < mx)%positive) by lia.
        rewrite Hc. reflexivity.
      * reflexivity.
      * exfalso. rewrite Z.min_l in H by lia.
        rewrite !shl_align_value in H by lia.
        rewrite Z.sub_diag, Z.pow_0_r, Z.mul_1_r in H.
        pose proof (bounded_exponent_order mx my ex ey Vx Vy Hgt). lia.
Qed.

End F64.

Local Open Scope float_scope.

Lemma Prim2SF_tolerance :
  Prim2SF TOLERANCE = S754_finite false 4722366482869645 (-72).
Proof. reflexivity. Qed.

(** A float above [TOLERANCE] is positive. *)
Lemma above_tolerance_positive (r : float) :
  (TOLERANCE <? r) = true -> is_positive (Prim2SF r) = true.
Proof.
  rewrite ltb_spec, Prim2SF_tolerance. unfold SFltb, SFcompare.
  destruct (Prim2SF r) as [s | s | | s m e]; try destruct s; cbn; congruence.
Qed.

(** The strict test of the tracker: a difference above [TOLERANCE] means a
    larger number. *)
Lemma sub_above_tolerance (a b : float) :
  (TOLERANCE <? a - b) = true -> (b <? a) = true.
Proof.
  intros H. apply above_tolerance_positive in H.
  rewrite sub_spec in H. rewrite ltb_spec.
  apply F64.SFsub_positive; auto using Prim2SF_valid.
Qed.

Lemma ltb_leb (a b : float) : (a <? b) = true -> (a <=? b) = true.
Proof.
  rewrite ltb_spec, leb_spec. unfold SFltb, SFleb.
  destruct (SFcompare _ _) as [[| |] |]; congruence.
Qed.

Lemma SFcompare_refl (x : spec_float) :
  x <> S754_nan -> SFcompare x x = Some Eq.
Proof.
  destruct x as [s | s | | s m e]; cbn; try congruence.
  - destruct s; reflexivity.
  - intros _. rewrite Z.compare_refl, Pos.compare_cont_refl.
    destruct s; reflexivity.
Qed.

Lemma not_nan_spec (a : float) : not_nan a <-> Prim2SF a <> S754_nan.
Proof.
  unfold not_nan. rewrite eqb_spec. unfold SFeqb. split.
  - intros H E. rewrite E in H. discriminate.
  - intros H. rewrite SFcompare_refl by assumption. reflexivity.
Qed.

Lemma leb_refl (a : float) : not_nan a -> (a <=? a) = true.
Proof.
  intros H. apply not_nan_spec in H.
  rewrite leb_spec. unfold SFleb. rewrite SFcompare_refl by assumption.
  reflexivity.
Qed.

Lemma ltb_not_nan (a b : float) : (a <? b) = true -> not_nan b.
Proof.
  rewrite ltb_spec. intros H. apply not_nan_spec. intros E.
  rewrite E in H. unfold SFltb, SFcompare in H.
  destruct (Prim2SF a); discriminate.
Qed.

Lemma eqb_zero (a : float) :
  (a =? 0) = true -> exists s, Prim2SF a = S754_zero s.
Proof.
  rewrite eqb_spec. change (Prim2SF 0) with (S754_zero false).
  unfold SFeqb, SFcompare.
  destruct (Prim2SF a) as [s | s | | s m e]; try destruct s; try discriminate;
    eauto.
Qed.

Lemma eqb_zero_zero (a b : float) :
  (a =? 0) = true -> (b =? 0) = true -> (a =? b) = true.
Proof.
  intros Ha Hb. apply eqb_zero in Ha. apply eqb_zero in Hb.
  destruct Ha as [sa Ha], Hb as [sb Hb].
  rewrite eqb_spec, Ha, Hb. reflexivity.
Qed.

(** ** Largest-text tracker *)

(** The three outcomes of an update. *)
Lemma update_cases (line : str) (y0' size' : float) (st : LargestText) :
  update_largest_text line y0' size' st = st
  \/ (TOLERANCE <? size' - size st) = true
     /\ update_largest_text line y0' size' st
        = {| contents := sub_final_newline line; y0 := y0'; size := size' |}
  \/ size (update_largest_text line y0' size' st) = size st.
Proof.
  unfold update_largest_text.
  destruct (_ && _ && _); [now left |].
  destruct (TOLERANCE <? size' - size st) eqn:Hgt; [right; left; now split |].
  destruct (is_close _ _); [right; right; reflexivity | now left].
Qed.

Lemma update_size_step (line : str) (y0' size' : float) (st : LargestText) :
  not_nan (size st) ->
  not_nan (size (update_largest_text line y0' size' st))
  /\ (size st <=? size (update_largest_text line y0' size' st)) = true.
Proof.
  intros Hn.
  destruct (update_cases line y0' size' st) as [E | [[Hgt E] | E]];
    rewrite E; cbn [size].
  - split; [assumption | now apply leb_refl].
  - apply sub_above_tolerance in Hgt. split.
    + eapply ltb_not_nan; eassumption.
    + now apply ltb_leb.
  - split; [assumption | now apply leb_refl].
Qed.

Lemma scan_app (us vs : list Update) (st : LargestText) :
  scan (us ++ vs) st = scan vs (scan us st).
Proof. apply fold_left_app. Qed.

Lemma scan_not_nan (us : list Update) (st : LargestText) :
  not_nan (size st) -> not_nan (size (scan us st)).
Proof.
  revert st. induction us as [| u us IH]; intros st Hn; [exact Hn |].
  cbn [scan fold_left]. apply IH. apply update_size_step. exact Hn.
Qed.

(** C5. Along every sequence of updates from the initial state, the size of
    the tracked text never decreases: after one more update it is at least
    what it was. *)
Theorem tracker_size_never_decreases (us : list Update) (u : Update) :
  (size (scan us initial_largest_text)
   <=? size (scan (us ++ [u]) initial_largest_text)) = true.
Proof.
  rewrite scan_app. cbn [scan fold_left]. unfold apply_update.
  apply update_size_step. apply scan_not_nan. reflexivity.
Qed.





(** Between the two rules: a zero-size line on the baseline of the state,
    or above it, is appended. *)
Lemma zero_size_same_baseline :
  update_largest_text (py "Second line") 700 0
    (update_largest_text (py "First line ") 700 0 initial_largest_text)
  = {| contents := py "First line Second line"; y0 := 700; size := 0 |}.
Proof. reflexivity. Qed.

(** C7, as the code has it. An update whose size is not more than
    [TOLERANCE] above the state's, is close to it in the relative sense,
    and is not stopped by the zero-size rule, appends its line to the
    contents and moves [y0]; the size stays. *)
Theorem continuation_merging (line : str) (y0' size' : float) (st : LargestText) :
  (size' =? size st) && (size st =? 0) && (y0' - y0 st <? - TOLERANCE) = false ->
  (TOLERANCE <? size' - size st) = false ->
  is_close size' (size st) = true ->
  update_largest_text line y0' size' st
  = {| contents := contents st ++ sub_final_newline line;
       y0 := y0';
       size := size st |}.
Proof.
  intros Hz Hgt Hc. unfold update_largest_text. rewrite Hz, Hgt, Hc.
  reflexivity.
Qed.

Lemma continuation_merging_witness :
  update_largest_text (py "Networks") 698 12.0000005
    (update_largest_text (py "Neural ") 700 12 initial_largest_text)
  = {| contents := py "Neural Networks"; y0 := 698; size := 12 |}.
Proof.
  change (update_largest_text (py "Neural ") 700 12 initial_largest_text)
    with {| contents := py "Neural "; y0 := 700; size := 12 |}.
  apply (continuation_merging (py "Networks") 698 12.0000005
           {| contents := py "Neural "; y0 := 700; size := 12 |});
    reflexivity.
Defined.

(** C7, as the claim has it, fails: sizes 12 and 12.000005 are within the
    relative tolerance of each other, yet the second update replaces the
    contents; and two zero sizes are close, yet a lower second line is
    dropped. *)
Lemma continuation_counterexample :
  is_close 12.000005 12 = true
  /\ update_largest_text (py "Networks") 698 12.000005
       (update_largest_text (py "Neural ") 700 12 initial_largest_text)
     = {| contents := py "Networks"; y0 := 698; size := 12.000005 |}
  /\ is_close 0 0 = true
  /\ update_largest_text (py "Networks") 698 0
       (update_largest_text (py "Neural ") 700 0 initial_largest_text)
     = {| contents := py "Neural "; y0 := 700; size := 0 |}.
Proof. repeat split. Qed.

Local Close Scope float_scope.

(** ** Figure reconstructor *)

(** A glyph of the running size changes neither the tracker nor the text
    that [extract_figure_text] returns: it only grows the line in
    progress. *)
Lemma figure_step_same_size (st : FigureScan) (text : str) (x0 x1 y0' size' : float) :
  PrimFloat.eqb size' (f_size st) = true ->
  f_largest_text (figure_advance st (LTChar text x0 x1 y0' size')) = f_largest_text st
  /\ f_text (figure_advance st (LTChar text x0 x1 y0' size')) = f_text st.
Proof.
  intros H. unfold figure_advance. rewrite H. cbn [negb].
  destruct (f_state st); cbn zeta beta iota;
    repeat match goal with
           | |- context [if ?b then _ else _] => destruct b
           end; cbn; auto.
Qed.

Lemma fold_result_app {A B} (f : A -> B -> result A) (l1 l2 : list B) (a : A) :
  fold_result f (l1 ++ l2) a
  = (a' <- fold_result f l1 a ;; fold_result f l2 a').
Proof.
  revert a. induction l1 as [| b l1 IH]; intros a; cbn [app fold_result bind];
    [reflexivity |].
  destruct (f a b) as [a' | e]; cbn [bind]; [apply IH | reflexivity].
Qed.

(** A trailing glyph of the running size is lost from the result. *)
Lemma figure_trailing_glyph_lost (children : list LTObj) (largest_text : LargestText)
    (st : FigureScan) (text : str) (x0 x1 y0' size' : float) :
  figure_loop children largest_text = Ok st ->
  PrimFloat.eqb size' (f_size st) = true ->
  existsb is_surrogate text = false ->
  extract_figure_text (children ++ [LTChar text x0 x1 y0' size']) largest_text
  = extract_figure_text children largest_text.
Proof.
  intros Hloop H Htext. unfold extract_figure_text, figure_loop in *.
  rewrite fold_result_app, Hloop. cbn [bind fold_result figure_step].
  unfold utf8_round_trip. rewrite Htext. cbn [bind].
  destruct (figure_step_same_size st text x0 x1 y0' size' H) as [E1 E2].
  now rewrite E1, E2.
Qed.

(** C2. The line in progress when the loop ends is not flushed: for the
    figure that holds the one line [Hi], the tracker is returned as it was
    given and the text is the single newline of the first, empty flush. *)
Theorem figure_last_line_dropped :
  extract_figure_text figure_hi initial_largest_text
  = Ok (initial_largest_text, [NEWLINE])
  /\ (st <- figure_loop figure_hi initial_largest_text ;; Ok (f_line st))
     = Ok (py "Hi").
Proof. split; reflexivity. Qed.

(** ** Layout pipeline *)

Lemma max_chars_value : MAX_CHARS * 2 = 20 * MAX_WORDS.
Proof. reflexivity. Qed.

Lemma page_step_text_block (acc : LargestText * str) (obj : LTObj) :
  (exists children, obj = LTTextBox children \/ obj = LTTextLine children) ->
  (page_step acc obj = Ok acc
   <-> 20 * MAX_WORDS < length (stripped_to_chars (get_text obj))).
Proof.
  intros [children Hobj]. rewrite <- max_chars_value.
  destruct acc as [largest_text text].
  assert (E : page_step (largest_text, text) obj
              = if MAX_CHARS * 2 <? length (stripped_to_chars (get_text obj))
                then Ok (largest_text, text)
                else Ok (extract_largest_text obj largest_text,
                         text ++ get_text obj ++ [NEWLINE])).
  { destruct Hobj; subst obj; reflexivity. }
  rewrite E.
  destruct (Nat.ltb_spec (MAX_CHARS * 2) (length (stripped_to_chars (get_text obj))))
    as [Hlt | Hge].
  - split; auto.
  - split; [| lia].
    intros H. injection H as _ H.
    apply (f_equal (@length N)) in H.
    rewrite !length_app in H. cbn [length] in H. lia.
Qed.

(** C8, as the code has it. A text box or a text line is skipped, leaving
    the tracker and the text as they were, exactly when its visible
    characters number more than [2 * MAX_CHARS], which is 20 times
    [MAX_WORDS]. *)
Theorem body_text_block_skipped (acc : LargestText * str) (children : list LTObj) :
  (page_step acc (LTTextBox children) = Ok acc
   <-> 20 * MAX_WORDS
       < length (stripped_to_chars (get_text (LTTextBox children))))
  /\ (page_step acc (LTTextLine children) = Ok acc
      <-> 20 * MAX_WORDS
          < length (stripped_to_chars (get_text (LTTextLine children)))).
Proof.
  split; apply page_step_text_block; exists children; auto.
Qed.

(** C8, as the claim has it, fails: a block of 500 visible characters is
    within 40 times [MAX_WORDS] and is skipped all the same. *)
Lemma body_text_block_counterexample :
  length (stripped_to_chars (get_text block_of_500)) = 500
  /\ 500 <= 40 * MAX_WORDS
  /\ page_step (initial_largest_text, []) block_of_500
     = Ok (initial_largest_text, []).
Proof.
  split; [vm_compute; reflexivity |].
  split; [vm_compute; lia |].
  vm_compute. reflexivity.
Qed.

(** ** Metadata *)

Lemma hasattr_title (meta : dict) :
  hasattr meta (py "title") = false
  /\ hasattr meta (py "Title") = false
  /\ hasattr meta (py "TITLE") = false.
Proof. repeat split. Qed.

(** Whatever the Info dictionaries hold, no title is read from them. *)
Lemma meta_title_loop_empty (docinfo : list dict) :
  meta_title_loop docinfo = Ok (PyStr []).
Proof.
  induction docinfo as [| meta rest IH]; [reflexivity |].
  cbn [meta_title_loop].
  destruct (hasattr_title meta) as (H1 & H2 & H3).
  rewrite H1, H2, H3. exact IH.
Qed.

(** C9. An Info dictionary with the key [Title] has no attribute of that
    name, so [meta_title] returns the empty string and not the title; and
    so it does for every list of Info dictionaries. *)
Theorem meta_title_misses_title_key :
  has_key info_with_title (py "Title") = true
  /\ getitem info_with_title (py "Title")
     = Ok (PyBytes (py "Attention Is All You Need"))
  /\ meta_title_of (Some [info_with_title]) = Ok (PyStr [])
  /\ (forall docinfo, meta_title_of (Some docinfo) = Ok (PyStr [])).
Proof.
  repeat split. intros docinfo. apply meta_title_loop_empty.
Qed.

(** ** Strategy orchestrator *)


(** What the third strategy raises leaves [pdf_title]: it runs outside
    any [try]. *)
Lemma pdf_title_third_stage_uncaught (E : Env) (filename : str) (e1 e2 e3 : exn) :
  env_docinfo E filename = Raise e1 ->
  env_first_page E filename = Raise e2 ->
  pdftotext_title E filename = Raise e3 ->
  pdf_title E filename = Raise e3.
Proof.
  intros H1 H2 H3. unfold pdf_title, candidate, meta_title, text_title, pdf_text.
  rewrite H1, H2, H3. reflexivity.
Qed.

(** The metadata strategy never yields a title, so [pdf_title] is what the
    other strategies make of the file. *)
Lemma pdf_title_skips_metadata (E : Env) (filename : str) :
  pdf_title E filename
  = try_except
      (candidate E (title <- text_title E filename ;; Ok (PyStr title)))
      (title <- pdftotext_title E filename ;;
       valid <- valid_title (env_unicode_lower E) (PyStr title) ;;
       if valid then Ok (PyStr title)
       else Ok (PyStr (basename (fst (splitext filename))))).
Proof.
  unfold pdf_title at 1, candidate at 1, meta_title, meta_title_of.
  destruct (env_docinfo E filename) as [[docinfo |] | e]; cbn [bind];
    rewrite ?meta_title_loop_empty; reflexivity.
Qed.

(** Where the external-tool strategy returns text, the base name is the
    last resort, and it is empty for an empty path and for a path that ends
    in a slash. *)
Lemma filename_strategy_can_be_empty :
  pdf_title missing_file_text [] = Ok (PyStr [])
  /\ pdf_title missing_file_text (py "papers/") = Ok (PyStr []).
Proof. split; reflexivity. Qed.

(** C1. For a path that names no file, the two pdfminer strategies fail
    and are skipped, and the [TypeError] of the external-tool strategy
    leaves [pdf_title]. *)
Theorem pdf_title_raises_on_missing_file :
  meta_title missing_file (py "missing.pdf") = Raise FileNotFoundError
  /\ text_title missing_file (py "missing.pdf") = Raise FileNotFoundError
  /\ pdftotext_title missing_file (py "missing.pdf") = Raise TypeError
  /\ pdf_title missing_file (py "missing.pdf") = Raise TypeError.
Proof. repeat split. Qed.

(** ** Character lists *)

Lemma mem_filter (c : N) (q : N -> bool) (s : str) :
  mem c s = false -> mem c (filter q s) = false.
Proof.
  unfold mem. induction s as [| x s IH]; cbn [existsb filter]; [auto |].
  intros H. apply orb_false_iff in H. destruct H as [Hx Hs].
  destruct (q x); cbn [existsb]; rewrite ?Hx; auto.
Qed.

Lemma mem_remove_chars (c : N) (p : N -> bool) (s : str) :
  p c = true -> mem c (remove_chars p s) = false.
Proof.
  intros Hp. unfold mem, remove_chars.
  induction s as [| x s IH]; cbn [existsb filter]; [reflexivity |].
  destruct (p x) eqn:Hx; cbn [negb existsb]; [exact IH |].
  rewrite IH, orb_false_r. apply N.eqb_neq. intros ->. congruence.
Qed.

Lemma rfind_from_absent (c : N) (s : str) (i : nat) (last : option nat) :
  mem c s = false -> rfind_from i last c s = last.
Proof.
  unfold mem. revert i last.
  induction s as [| x s IH]; intros i last H; cbn [rfind_from]; [reflexivity |].
  cbn [existsb] in H. apply orb_false_iff in H. destruct H as [Hx Hs].
  rewrite N.eqb_sym in Hx. rewrite Hx. now apply IH.
Qed.

(** A path without a dot has no extension. *)
Lemma splitext_no_dot (p : str) : mem DOT p = false -> splitext p = (p, []).
Proof.
  intros H. unfold splitext, rfind.
  rewrite (rfind_from_absent DOT p 0 None H). cbn [index_of].
  assert (Hlt : (index_of (rfind_from 0 None SLASH p) <? -1)%Z = false).
  { apply Z.ltb_ge. destruct (rfind_from 0 None SLASH p); cbn [index_of]; lia. }
  rewrite Hlt. reflexivity.
Qed.

(** ** Titles read from text *)

Lemma strip_dots_and_whitespace_clean (text : str) :
  mem DOT (strip_dots_and_whitespace text) = false
  /\ mem TAB (strip_dots_and_whitespace text) = false
  /\ mem NEWLINE (strip_dots_and_whitespace text) = false.
Proof.
  unfold strip_dots_and_whitespace. repeat split.
  - apply mem_filter. now apply mem_remove_chars.
  - now apply mem_remove_chars.
  - now apply mem_remove_chars.
Qed.

Lemma text_title_shape (E : Env) (filename title : str) :
  text_title E filename = Ok title ->
  exists text, title = strip_dots_and_whitespace text.
Proof.
  unfold text_title, pdf_text.
  destruct (env_first_page E filename) as [[page |] | e]; cbn [bind];
    try discriminate.
  destruct (page_text page) as [[largest_text lines_joined] | e]; cbn [bind];
    try discriminate.
  intros H. injection H as <-. unfold text_title_of. eauto.
Qed.

Lemma pdftotext_title_shape (E : Env) (filename title : str) :
  pdftotext_title E filename = Ok title ->
  exists text, title = strip_dots_and_whitespace text.
Proof.
  unfold pdftotext_title, pdftotext_title_of.
  destruct (env_stdout E _) as [out | b]; try discriminate.
  intros H. injection H as <-. eauto.
Qed.

(** C10. A title that [text_title] or [pdftotext_title] returns holds no
    period, tab or newline, and so [os.path.splitext] finds no extension
    in it: the extension test of [valid_title] passes. *)
Theorem extracted_title_has_no_extension (E : Env) (filename title : str) :
  text_title E filename = Ok title \/ pdftotext_title E filename = Ok title ->
  mem DOT title = false
  /\ mem TAB title = false
  /\ mem NEWLINE title = false
  /\ empty_str (snd (splitext title)) = true.
Proof.
  intros H.
  assert (Hshape : exists text, title = strip_dots_and_whitespace text).
  { destruct H as [H | H];
      [eapply text_title_shape | eapply pdftotext_title_shape]; eassumption. }
  destruct Hshape as [text ->].
  destruct (strip_dots_and_whitespace_clean text) as (Hd & Ht & Hn).
  repeat split; try assumption.
  rewrite (splitext_no_dot _ Hd). reflexivity.
Qed.

Lemma extracted_title_has_no_extension_witness :
  mem DOT (py "Vol 2: Parsing") = false
  /\ mem TAB (py "Vol 2: Parsing") = false
  /\ mem NEWLINE (py "Vol 2: Parsing") = false
  /\ empty_str (snd (splitext (py "Vol 2: Parsing"))) = true.
Proof.
  apply (extracted_title_has_no_extension heading_document (py "paper.pdf")
           (py "Vol 2: Parsing")).
  left. vm_compute. reflexivity.
Defined.

(** ** Sanitizer *)

Lemma split_length (sep : N) (s : str) :
  length (split sep s) = S (count sep s).
Proof.
  unfold count. induction s as [| c s IH]; [reflexivity |].
  cbn [split filter]. rewrite (N.eqb_sym sep c).
  destruct (c =? sep)%N; cbn [length].
  - now rewrite IH.
  - destruct (split sep s) as [| w ws]; cbn [length] in *; [discriminate | exact IH].
Qed.



Lemma join_cons (sep w w' : str) (ws : list str) :
  join sep (w :: w' :: ws) = w ++ sep ++ join sep (w' :: ws).
Proof. reflexivity. Qed.



Lemma join_split (sep : N) (s : str) : join [sep] (split sep s) = s.
Proof.
  induction s as [| c s IH]; [reflexivity |].
  cbn [split]. destruct (c =? sep)%N eqn:Hc.
  - apply N.eqb_eq in Hc. subst c.
    destruct (split sep s) as [| w ws] eqn:Hs.
    + pose proof (split_length sep s) as Hl. rewrite Hs in Hl. discriminate.
    + rewrite join_cons, IH. reflexivity.
  - destruct (split sep s) as [| w ws] eqn:Hs.
    + pose proof (split_length sep s) as Hl. rewrite Hs in Hl. discriminate.
    + destruct ws as [| w' ws'].
      * cbn [join] in *. now rewrite IH.
      * rewrite join_cons in *. rewrite <- IH. reflexivity.
Qed.



(** *** What each substitution does to lengths and blanks *)

























(** What a string of allowed characters is free of. *)
Lemma valid_char_facts (c : N) :
  valid_char c = true ->
  is_ascii c = true /\ is_surrogate c = false /\ c <> COMMA /\ c <> COLON
  /\ c <> NEWLINE /\ blank c = ((c =? SPACE)%N).
Proof.
  unfold valid_char, mem, ascii_letters, ascii_lowercase, ascii_uppercase,
    digit, is_ascii, is_surrogate, in_range, blank, COMMA, COLON, NEWLINE,
    SPACE, TAB.
  cbn [py list_ascii_of_string map existsb].
  intros H.
  repeat rewrite orb_true_iff in H. repeat rewrite andb_true_iff in H.
  repeat rewrite N.eqb_eq in H. repeat rewrite N.leb_le in H.
  change (N_of_ascii "-") with 45%N in H.
  change (N_of_ascii "_") with 95%N in H.
  change (N_of_ascii ".") with 46%N in H.
  change (N_of_ascii "(") with 40%N in H.
  change (N_of_ascii ")") with 41%N in H.
  change (N_of_ascii " ") with 32%N in H.
  assert (Hc : (c < 128 /\ c <> 44 /\ c <> 58 /\ c <> 10 /\ c <> 9)%N) by lia.
  destruct Hc as (H1 & H2 & H3 & H4 & H5).
  repeat split; try assumption.
  - now apply N.ltb_lt.
  - apply andb_false_iff. left. apply N.leb_gt. lia.
  - apply N.eqb_neq in H5. rewrite H5. apply orb_false_r.
Qed.

(** *** Strings the sanitizer leaves alone *)

Lemma valid_all (r : str) :
  forallb valid_char r = true -> Forall (fun c => valid_char c = true) r.
Proof. intros H. apply Forall_forall. now apply forallb_forall. Qed.

Lemma unidecode_ascii (translit : N -> str) (s : str) :
  Forall (fun c => valid_char c = true) s -> unidecode translit s = s.
Proof.
  induction 1 as [| c s Hc Hs IH]; [reflexivity |].
  unfold unidecode in *. cbn [flat_map].
  destruct (valid_char_facts c Hc) as (Ha & _). rewrite Ha, IH. reflexivity.
Qed.

Lemma no_surrogate (s : str) :
  Forall (fun c => valid_char c = true) s -> existsb is_surrogate s = false.
Proof.
  induction 1 as [| c s Hc Hs IH]; [reflexivity |].
  cbn [existsb]. destruct (valid_char_facts c Hc) as (_ & Hsur & _).
  now rewrite Hsur, IH.
Qed.

Lemma sub_comma_id (s : str) :
  Forall (fun c => valid_char c = true) s -> sub_comma s = s.
Proof.
  induction 1 as [| c s Hc Hs IH]; [reflexivity |].
  unfold sub_comma in *. cbn [map].
  destruct (valid_char_facts c Hc) as (_ & _ & Hcomma & _).
  apply N.eqb_neq in Hcomma. now rewrite Hcomma, IH.
Qed.

Lemma sub_colon_space_id (s : str) :
  Forall (fun c => valid_char c = true) s -> sub_colon_space s = s.
Proof.
  induction 1 as [| c s Hc Hs IH]; [reflexivity |].
  cbn [sub_colon_space].
  destruct (valid_char_facts c Hc) as (_ & _ & _ & Hcolon & _).
  apply N.eqb_neq in Hcolon. rewrite Hcolon. cbn [andb].
  destruct s; [reflexivity | now rewrite IH].
Qed.

Lemma no_newline (s : str) :
  Forall (fun c => valid_char c = true) s -> mem NEWLINE s = false.
Proof.
  induction 1 as [| c s Hc Hs IH]; [reflexivity |].
  unfold mem in *. cbn [existsb].
  destruct (valid_char_facts c Hc) as (_ & _ & _ & _ & Hnl & _).
  rewrite IH, orb_false_r. apply N.eqb_neq. congruence.
Qed.

Lemma ends_with_pdf_cons (c : N) (s : str) :
  ends_with_pdf s = true -> ends_with_pdf (c :: s) = true.
Proof. intros H. cbn [ends_with_pdf]. rewrite H. apply orb_true_r. Qed.

Lemma str_eqb_eq (a b : str) : str_eqb a b = true <-> a = b.
Proof.
  revert b. induction a as [| x a IH]; intros [| y b]; cbn [str_eqb];
    split; try congruence; try discriminate.
  - intros H. apply andb_prop in H. destruct H as [Hx Hab].
    apply N.eqb_eq in Hx. apply IH in Hab. congruence.
  - intros H. injection H as -> ->. rewrite N.eqb_refl. now apply IH.
Qed.

(** Where the pattern [\.pdf(\.pdf)*$] matches a text without newline, the
    text ends in [.pdf]. *)
Lemma pdf_run_ends (n : nat) (s : str) :
  length s <= n -> mem NEWLINE s = false -> pdf_run s <> None ->
  ends_with_pdf s = true.
Proof.
  revert s. induction n as [| n IH]; intros s Hlen Hnl Hrun.
  - destruct s; [now contradiction Hrun | cbn in Hlen; lia].
  - destruct s as [| a [| b [| c [| d rest]]]]; try now contradiction Hrun.
    cbn [pdf_run] in Hrun.
    destruct ((a =? DOT)%N && (b =? ch "p")%N && (c =? ch "d")%N && (d =? ch "f")%N)
      eqn:Hhead; [| now contradiction Hrun].
    repeat (apply andb_prop in Hhead; destruct Hhead as [Hhead ?]).
    repeat match goal with H : (_ =? _)%N = true |- _ => apply N.eqb_eq in H end.
    subst a b c d.
    destruct (str_eqb rest []) eqn:Hnil.
    + apply str_eqb_eq in Hnil. subst rest. reflexivity.
    + destruct (str_eqb rest [NEWLINE]) eqn:Hone.
      * apply str_eqb_eq in Hone. subst rest. discriminate Hnl.
      * cbn [orb] in Hrun.
        do 4 apply ends_with_pdf_cons. apply IH.
        -- cbn [length] in Hlen. lia.
        -- unfold mem in *. cbn [existsb] in Hnl.
           repeat (apply orb_false_iff in Hnl; destruct Hnl as [_ Hnl]).
           exact Hnl.
        -- exact Hrun.
Qed.

Lemma sub_pdf_suffix_id (s : str) :
  mem NEWLINE s = false -> ends_with_pdf s = false -> sub_pdf_suffix s = s.
Proof.
  induction s as [| c s IH]; intros Hnl Hend; [reflexivity |].
  cbn [sub_pdf_suffix].
  destruct (pdf_run (c :: s)) as [tail |] eqn:Hrun.
  - assert (H : ends_with_pdf (c :: s) = true).
    { apply (pdf_run_ends (length (c :: s))); [lia | assumption | congruence]. }
    congruence.
  - f_equal. apply IH.
    + unfold mem in *. cbn [existsb] in Hnl.
      apply orb_false_iff in Hnl. tauto.
    + cbn [ends_with_pdf] in Hend. apply orb_false_iff in Hend. tauto.
Qed.

Lemma collapse_blanks_from_id (s : str) (in_run : bool) :
  Forall (fun c => valid_char c = true) s ->
  adjacent_spaces s = false ->
  (in_run = true -> match s with c :: _ => (c =? SPACE)%N = false | [] => True end) ->
  collapse_blanks_from in_run s = s.
Proof.
  intros Hv. revert in_run.
  induction Hv as [| c s Hc Hs IH]; intros in_run Hadj Hhead; [reflexivity |].
  cbn [collapse_blanks_from].
  destruct (valid_char_facts c Hc) as (_ & _ & _ & _ & _ & Hblank).
  rewrite Hblank.
  assert (Hrest : adjacent_spaces s = false).
  { cbn [adjacent_spaces] in Hadj. destruct s; [reflexivity |].
    apply orb_false_iff in Hadj. tauto. }
  destruct (c =? SPACE)%N eqn:Hsp.
  - destruct in_run; [specialize (Hhead eq_refl); congruence |].
    apply N.eqb_eq in Hsp. subst c. f_equal. apply IH; [assumption |].
    intros _. destruct s as [| d s']; [exact I |].
    cbn [adjacent_spaces] in Hadj. apply orb_false_iff in Hadj.
    destruct Hadj as [Hadj _]. rewrite N.eqb_refl in Hadj. exact Hadj.
  - f_equal. apply IH; [assumption | discriminate].
Qed.

(** A string in the sanitizer's normal form is returned as it is. *)
Lemma sanitize_normal (translit : N -> str) (r : str) :
  forallb valid_char r = true ->
  length (split SPACE r) <= MAX_WORDS ->
  length r <= MAX_CHARS ->
  adjacent_spaces r = false ->
  ends_with_pdf r = false ->
  sanitize translit r = Ok r.
Proof.
  intros Hvalid Hwords Hchars Hadj Hend.
  pose proof (valid_all r Hvalid) as Hall.
  assert (Ht : truncate r = r).
  { unfold truncate. rewrite firstn_all2 by assumption. rewrite join_split.
    destruct (Nat.ltb_spec MAX_CHARS (length r)); [lia | reflexivity]. }
  unfold sanitize, utf8_round_trip. rewrite Ht, (no_surrogate r Hall).
  cbn [bind].
  rewrite (unidecode_ascii translit r Hall), (sub_comma_id r Hall),
    (sub_colon_space_id r Hall),
    (sub_pdf_suffix_id r (no_newline r Hall) Hend).
  unfold collapse_blanks.
  rewrite (collapse_blanks_from_id r false Hall Hadj) by discriminate.
  now rewrite forallb_filter_id.
Qed.

(** C4, as the code has it. Sanitizing twice is sanitizing once whenever
    the sanitized text has at most 20 words between single spaces and 200
    characters, no two spaces side by side and no final [.pdf]. *)
Theorem sanitize_idempotent_on_normal_output (translit : N -> str) (s r : str) :
  sanitize translit s = Ok r ->
  length (split SPACE r) <= MAX_WORDS ->
  length r <= MAX_CHARS ->
  adjacent_spaces r = false ->
  ends_with_pdf r = false ->
  (r' <- sanitize translit s ;; sanitize translit r') = sanitize translit s.
Proof.
  intros Hs Hwords Hchars Hadj Hend. rewrite Hs. cbn [bind].
  apply sanitize_normal; try assumption.
  unfold sanitize in Hs.
  destruct (utf8_round_trip (truncate s)); cbn [bind] in Hs; [| discriminate].
  injection Hs as <-. apply forallb_filter.
Qed.

Lemma sanitize_idempotent_witness :
  (r' <- sanitize no_table (py "Efficient Parsing: A Survey") ;;
   sanitize no_table r')
  = sanitize no_table (py "Efficient Parsing: A Survey").
Proof.
  apply (sanitize_idempotent_on_normal_output no_table
           (py "Efficient Parsing: A Survey")
           (py "Efficient Parsing - A Survey")).
  - vm_compute. reflexivity.
  - vm_compute. lia.
  - vm_compute. lia.
  - vm_compute. reflexivity.
  - vm_compute. reflexivity.
Defined.

(** C4, as the claim has it, fails: a character dropped after [.pdf]
    leaves a suffix that the second pass strips, a character dropped
    between two spaces leaves a pair that the second pass collapses, and
    commas turned into spaces leave words that the second pass cuts. *)
Lemma sanitize_idempotent_counterexample :
  (forall translit, sanitize translit (py "x.pdf!") = Ok (py "x.pdf"))
  /\ (forall translit, sanitize translit (py "x.pdf") = Ok (py "x"))
  /\ (forall translit, sanitize translit (py "a ! b") = Ok (py "a  b"))
  /\ (forall translit, sanitize translit (py "a  b") = Ok (py "a b"))
  /\ (forall translit, sanitize translit twenty_one_items = Ok twenty_one_words)
  /\ (forall translit, sanitize translit twenty_one_words
                       = Ok (firstn 39 twenty_one_words)).
Proof. repeat split; intros; vm_compute; reflexivity. Qed.

(** * Further properties *)

(** ** The order of binary64 numbers *)

Lemma SFcompare_rank (x y : spec_float) :
  x <> S754_nan -> y <> S754_nan ->
  SFcompare x y = Some (lex_compare (rank x) (rank y)).
Proof.
  intros Hx Hy.
  destruct x as [sx | sx | | sx mx ex], y as [sy | sy | | sy my ey];
    try congruence;
    try (destruct sx; reflexivity);
    try (destruct sy; reflexivity);
    try (destruct sx, sy; reflexivity).
  destruct sx, sy; cbn [SFcompare rank lex_compare]; try reflexivity.
  change (-1 ?= -1)%Z with Eq. cbn match.
  rewrite Z.compare_opp. rewrite (Z.compare_antisym ex ey).
  destruct (ex ?= ey)%Z; reflexivity.
Qed.

Lemma lex_compare_le (a b : Z * Z * Z) :
  (lex_compare a b = Lt \/ lex_compare a b = Eq) <-> lex_le a b.
Proof.
  destruct a as [[a1 a2] a3], b as [[b1 b2] b3]. unfold lex_compare, lex_le.
  destruct (Z.compare_spec a1 b1), (Z.compare_spec a2 b2),
    (Z.compare_spec a3 b3); split; intros Hle; try lia;
    try (destruct Hle; discriminate); auto.
Qed.

Lemma lex_compare_lt (a b : Z * Z * Z) :
  lex_compare a b = Lt <-> lex_lt a b.
Proof.
  destruct a as [[a1 a2] a3], b as [[b1 b2] b3]. unfold lex_compare, lex_lt.
  destruct (Z.compare_spec a1 b1), (Z.compare_spec a2 b2),
    (Z.compare_spec a3 b3); split; intros Hlt; try lia;
    try discriminate; auto.
Qed.

Local Open Scope float_scope.

Lemma leb_rank (a b : float) :
  (a <=? b) = true
  <-> not_nan a /\ not_nan b /\ lex_le (rank (Prim2SF a)) (rank (Prim2SF b)).
Proof.
  rewrite leb_spec, !not_nan_spec. unfold SFleb. split.
  - intros H.
    assert (Ha : Prim2SF a <> S754_nan).
    { intros E. rewrite E in H. discriminate. }
    assert (Hb : Prim2SF b <> S754_nan).
    { intros E. rewrite E in H. destruct (Prim2SF a); discriminate. }
    repeat split; try assumption.
    rewrite (SFcompare_rank _ _ Ha Hb) in H. apply lex_compare_le.
    destruct (lex_compare _ _); auto; discriminate.
  - intros (Ha & Hb & H). rewrite (SFcompare_rank _ _ Ha Hb).
    apply lex_compare_le in H. destruct H as [-> | ->]; reflexivity.
Qed.

Lemma ltb_rank (a b : float) :
  (a <? b) = true
  <-> not_nan a /\ not_nan b /\ lex_lt (rank (Prim2SF a)) (rank (Prim2SF b)).
Proof.
  rewrite ltb_spec, !not_nan_spec. unfold SFltb. split.
  - intros H.
    assert (Ha : Prim2SF a <> S754_nan).
    { intros E. rewrite E in H. discriminate. }
    assert (Hb : Prim2SF b <> S754_nan).
    { intros E. rewrite E in H. destruct (Prim2SF a); discriminate. }
    repeat split; try assumption.
    rewrite (SFcompare_rank _ _ Ha Hb) in H. apply lex_compare_lt.
    destruct (lex_compare _ _); auto; discriminate.
  - intros (Ha & Hb & H). rewrite (SFcompare_rank _ _ Ha Hb).
    apply lex_compare_lt in H. now rewrite H.
Qed.

Ltac rank_order :=
  repeat match goal with
         | H : (_ <=? _) = true |- _ => apply leb_rank in H; destruct H as (? & ? & H)
         | H : (_ <? _) = true |- _ => apply ltb_rank in H; destruct H as (? & ? & H)
         end;
  repeat match goal with
         | |- context [rank ?x] =>
             let r := fresh "r" in
             destruct (rank x) as [[? ?] ?]
         | H : context [rank ?x] |- _ =>
             let r := fresh "r" in
             destruct (rank x) as [[? ?] ?]
         end;
  unfold lex_le, lex_lt in *; lia.

Lemma leb_trans (a b c : float) :
  (a <=? b) = true -> (b <=? c) = true -> (a <=? c) = true.
Proof.
  intros H1 H2. apply leb_rank.
  pose proof H1 as H1'. pose proof H2 as H2'.
  apply leb_rank in H1'. apply leb_rank in H2'.
  destruct H1' as (Ha & _ & _), H2' as (_ & Hc & _).
  repeat split; try assumption. rank_order.
Qed.

Lemma leb_ltb_trans (a b c : float) :
  (a <=? b) = true -> (b <? c) = true -> (a <? c) = true.
Proof.
  intros H1 H2. apply ltb_rank.
  pose proof H1 as H1'. pose proof H2 as H2'.
  apply leb_rank in H1'. apply ltb_rank in H2'.
  destruct H1' as (Ha & _ & _), H2' as (_ & Hc & _).
  repeat split; try assumption. rank_order.
Qed.

(** Two numbers always compare one way or the other. *)
Lemma not_ltb_leb (a b : float) :
  not_nan a -> not_nan b -> (a <? b) = false -> (b <=? a) = true.
Proof.
  intros Ha Hb H. apply leb_rank. repeat split; try assumption.
  destruct (lex_compare (rank (Prim2SF b)) (rank (Prim2SF a))) eqn:Hc.
  - apply lex_compare_le. auto.
  - apply lex_compare_le. auto.
  - exfalso. assert (Hlt : (a <? b) = true); [| congruence].
    apply ltb_rank. repeat split; try assumption.
    destruct (rank (Prim2SF a)) as [[a1 a2] a3], (rank (Prim2SF b)) as [[b1 b2] b3].
    unfold lex_compare in Hc. unfold lex_lt.
    destruct (Z.compare_spec b1 a1), (Z.compare_spec b2 a2),
      (Z.compare_spec b3 a3); try discriminate; lia.
Qed.

Lemma leb_not_nan (a b : float) : (a <=? b) = true -> not_nan a /\ not_nan b.
Proof. intros H. apply leb_rank in H. tauto. Qed.

Local Close Scope float_scope.

(** ** The tracker across a page *)

Lemma tracker_le_refl (st : LargestText) : not_nan (size st) -> tracker_le st st.
Proof. apply leb_refl. Qed.

Lemma tracker_le_trans (a b c : LargestText) :
  tracker_le a b -> tracker_le b c -> tracker_le a c.
Proof. apply leb_trans. Qed.

Lemma tracker_le_not_nan (a b : LargestText) :
  tracker_le a b -> not_nan (size b).
Proof. intros H. now apply leb_not_nan in H. Qed.

Lemma update_le (line : str) (y0' size' : float) (st : LargestText) :
  not_nan (size st) -> tracker_le st (update_largest_text line y0' size' st).
Proof. intros H. now apply update_size_step. Qed.

Lemma extract_line_le (text : str) (line : list LTObj) (j : nat) (st : LargestText) :
  not_nan (size st) -> tracker_le st (extract_line text j line st).
Proof.
  intros Hn. revert j. induction line as [| child rest IH]; intros j;
    cbn [extract_line]; [now apply tracker_le_refl |].
  destruct child as [text' x0 x1 y0' size' | | | | |]; try apply IH.
  destruct (1 <? j); [now apply update_le | apply IH].
Qed.

Lemma extract_children_le (text : str) (children : list LTObj) (i : nat)
    (st : LargestText) :
  not_nan (size st) -> tracker_le st (extract_children text i children st).
Proof.
  revert i st. induction children as [| child rest IH]; intros i st Hn;
    cbn [extract_children]; [now apply tracker_le_refl |].
  destruct child as [text' x0 x1 y0' size' | | line | | |]; try (now apply IH).
  - destruct (1 <? i); [now apply update_le | now apply IH].
  - pose proof (extract_line_le (get_text (LTTextLine line)) line 0 st Hn)
      as Hline.
    eapply tracker_le_trans; [exact Hline |].
    apply IH. eapply tracker_le_not_nan; eassumption.
Qed.

Lemma figure_advance_le (st : FigureScan) (child : LTObj) :
  not_nan (size (f_largest_text st)) ->
  tracker_le (f_largest_text st) (f_largest_text (figure_advance st child)).
Proof.
  intros Hn.
  destruct child as [text x0 x1 y0' size' | | | | |];
    try (now apply tracker_le_refl).
  destruct (PrimFloat.eqb size' (f_size st)) eqn:Hsize.
  - destruct (figure_step_same_size st text x0 x1 y0' size' Hsize) as [E _].
    rewrite E. now apply tracker_le_refl.
  - unfold figure_advance. rewrite Hsize. cbn [negb f_largest_text].
    now apply update_le.
Qed.

(** What an iteration returns is the state advanced, or the state itself. *)
Lemma figure_step_returns (st st' : FigureScan) (child : LTObj) :
  figure_step st child = Ok st' ->
  undecodable child = false
  /\ st' = if is_char child then figure_advance st child else st.
Proof.
  destruct child as [text x0 x1 y0' size' | | | | |];
    cbn [figure_step undecodable is_char]; intros H;
    try (injection H as <-; split; reflexivity).
  unfold utf8_round_trip in H.
  destruct (existsb is_surrogate text); cbn [bind] in H; [discriminate |].
  injection H as <-. split; reflexivity.
Qed.

Lemma figure_step_raises (st : FigureScan) (child : LTObj) (e : exn) :
  figure_step st child = Raise e ->
  undecodable child = true /\ e = UnicodeEncodeError.
Proof.
  destruct child as [text x0 x1 y0' size' | | | | |];
    cbn [figure_step undecodable]; intros H; try discriminate.
  unfold utf8_round_trip in H.
  destruct (existsb is_surrogate text); cbn [bind] in H; [| discriminate].
  injection H as <-. split; reflexivity.
Qed.

Lemma figure_step_le (st st' : FigureScan) (child : LTObj) :
  figure_step st child = Ok st' ->
  not_nan (size (f_largest_text st)) ->
  tracker_le (f_largest_text st) (f_largest_text st').
Proof.
  intros H Hn. apply figure_step_returns in H. destruct H as [_ ->].
  destruct (is_char child); [now apply figure_advance_le | now apply tracker_le_refl].
Qed.

Lemma figure_fold_le (children : list LTObj) (st st' : FigureScan) :
  fold_result figure_step children st = Ok st' ->
  not_nan (size (f_largest_text st)) ->
  tracker_le (f_largest_text st) (f_largest_text st').
Proof.
  revert st. induction children as [| child rest IH]; intros st H Hn;
    cbn [fold_result] in H.
  - injection H as <-. now apply tracker_le_refl.
  - destruct (figure_step st child) as [st1 |] eqn:Hstep; cbn [bind] in H;
      [| discriminate].
    pose proof (figure_step_le st st1 child Hstep Hn) as Hle.
    eapply tracker_le_trans; [exact Hle |].
    apply IH; [exact H |]. eapply tracker_le_not_nan; eassumption.
Qed.

(** The glyph loop returns when every glyph can be encoded. *)
Lemma figure_fold_returns (children : list LTObj) (st : FigureScan) :
  existsb undecodable children = false ->
  exists st', fold_result figure_step children st = Ok st'.
Proof.
  revert st. induction children as [| child rest IH]; intros st H;
    cbn [fold_result]; [eauto |].
  cbn [existsb] in H. apply orb_false_iff in H. destruct H as [Hchild Hrest].
  destruct (figure_step st child) as [st1 | e] eqn:Hstep; cbn [bind].
  - now apply IH.
  - apply figure_step_raises in Hstep. destruct Hstep as [Hu _]. congruence.
Qed.

Lemma page_step_le (acc acc' : LargestText * str) (lt_obj : LTObj) :
  page_step acc lt_obj = Ok acc' ->
  not_nan (size (fst acc)) -> tracker_le (fst acc) (fst acc').
Proof.
  destruct acc as [st text]. cbn [fst]. intros H Hn.
  assert (Hbody : forall obj,
             (if (MAX_CHARS * 2 <? length (stripped_to_chars (get_text obj)))
              then Ok (st, text)
              else Ok (extract_largest_text obj st,
                       text ++ get_text obj ++ [NEWLINE])) = Ok acc' ->
             tracker_le st (fst acc')).
  { intros obj. destruct (_ <? _); intros E; injection E as <-; cbn [fst];
      [now apply tracker_le_refl | now apply extract_children_le]. }
  destruct lt_obj as [text' x0 x1 y0' size' | | line | box | figure |];
    cbn [page_step] in H;
    try (injection H as <-; now apply tracker_le_refl);
    try (now apply Hbody in H).
  unfold extract_figure_text, figure_loop in H.
  destruct (fold_result figure_step figure (figure_start st)) as [st' |] eqn:Hfold;
    cbn [bind] in H; [| discriminate].
  injection H as <-. cbn [fst].
  apply (figure_fold_le figure (figure_start st) st' Hfold). exact Hn.
Qed.

Lemma page_fold_le (layout : list LTObj) (acc acc' : LargestText * str) :
  fold_result page_step layout acc = Ok acc' ->
  not_nan (size (fst acc)) -> tracker_le (fst acc) (fst acc').
Proof.
  revert acc. induction layout as [| obj rest IH]; intros acc H Hn;
    cbn [fold_result] in H.
  - injection H as <-. now apply tracker_le_refl.
  - destruct (page_step acc obj) as [acc1 |] eqn:Hstep; cbn [bind] in H;
      [| discriminate].
    pose proof (page_step_le acc acc1 obj Hstep Hn) as Hle.
    eapply tracker_le_trans; [exact Hle |].
    apply IH; [exact H |]. eapply tracker_le_not_nan; eassumption.
Qed.

(** The page loop returns when every glyph of every figure can be encoded. *)
Lemma page_fold_returns (layout : list LTObj) (acc : LargestText * str) :
  forallb decodable layout = true ->
  exists acc', fold_result page_step layout acc = Ok acc'.
Proof.
  revert acc. induction layout as [| obj rest IH]; intros acc H;
    cbn [fold_result]; [eauto |].
  cbn [forallb] in H. apply andb_prop in H. destruct H as [Hobj Hrest].
  assert (Hstep : exists acc1, page_step acc obj = Ok acc1).
  { destruct acc as [st text].
    destruct obj as [text' x0 x1 y0' size' | | line | box | figure |];
      cbn [page_step]; try (destruct (_ <? _)); eauto.
    cbn [decodable] in Hobj. apply negb_true_iff in Hobj.
    unfold extract_figure_text, figure_loop.
    destruct (figure_fold_returns figure (figure_start st) Hobj) as [st' ->].
    cbn [bind]. eauto. }
  destruct Hstep as [acc1 ->]. cbn [bind]. now apply IH.
Qed.

(** X1. Over the layout objects of a page, figures and text blocks alike,
    the size of the tracked text never decreases: where the scan of a page
    returns, the scan of any part of it from the start returned too, and
    with a size that is no larger; so the size that [pdf_text] returns is
    never negative and never NaN. The scan returns whenever no glyph of a
    figure holds a lone surrogate. *)
Theorem page_scan_size_monotone (before after : list LTObj) :
  (forall acc', page_scan (before ++ after) = Ok acc' ->
     exists acc, page_scan before = Ok acc /\ tracker_le (fst acc) (fst acc'))
  /\ (forall r, page_text (before ++ after) = Ok r ->
        PrimFloat.leb 0 (size (fst r)) = true)
  /\ (forallb decodable (before ++ after) = true ->
      exists r, page_text (before ++ after) = Ok r).
Proof.
  assert (H0 : not_nan (size (fst (initial_largest_text, @nil N)))) by reflexivity.
  split; [| split].
  - unfold page_scan. intros acc' H. rewrite fold_result_app in H.
    destruct (fold_result page_step before (initial_largest_text, []))
      as [acc |] eqn:Hbefore; cbn [bind] in H; [| discriminate].
    exists acc. split; [reflexivity |].
    apply (page_fold_le after acc acc' H).
    eapply tracker_le_not_nan. exact (page_fold_le _ _ _ Hbefore H0).
  - unfold page_text. intros r H.
    destruct (fold_result page_step (before ++ after) (initial_largest_text, []))
      as [[st text] |] eqn:Hfold; cbn [bind] in H; [| discriminate].
    injection H as <-. cbn [fst size].
    exact (page_fold_le _ _ _ Hfold H0).
  - intros H. unfold page_text.
    destruct (page_fold_returns _ (initial_largest_text, []) H) as [[st text] ->].
    cbn [bind]. eauto.
Qed.

(** ** Grouped-text extractor *)

Lemma extract_line_first_glyph (text : str) (line : list LTObj) (j : nat)
    (st : LargestText) :
  extract_line text j line st
  = match first_glyph (skipn (2 - j) line) with
    | Some (y0', size') => update_largest_text text y0' size' st
    | None => st
    end.
Proof.
  revert j. induction line as [| child rest IH]; intros j.
  - cbn [extract_line]. now rewrite skipn_nil.
  - cbn [extract_line].
    destruct j as [| [| j]].
    + cbn [Nat.ltb Nat.leb Nat.sub skipn]. rewrite (IH 1). cbn [Nat.sub].
      destruct child; reflexivity.
    + cbn [Nat.ltb Nat.leb Nat.sub skipn]. rewrite (IH 2). cbn [Nat.sub skipn].
      destruct child; reflexivity.
    + replace (2 - S (S j)) with 0 by lia. cbn [skipn first_glyph].
      destruct child; rewrite IH; replace (2 - S (S (S j))) with 0 by lia;
        reflexivity.
Qed.

(** X2. In a text box made of text lines, every line gives the tracker at
    most one update: the baseline and size of the first glyph found at its
    third place or later, with the text of the whole line; a line with
    fewer than three children gives none. *)
Theorem extract_largest_text_per_line (lines : list (list LTObj)) (st : LargestText) :
  extract_largest_text (LTTextBox (map LTTextLine lines)) st
  = fold_left line_update lines st.
Proof.
  unfold extract_largest_text. cbn [children_of].
  generalize (get_text (LTTextBox (map LTTextLine lines))) as text.
  generalize 0 as i. revert st.
  induction lines as [| line rest IH]; intros st i text; [reflexivity |].
  cbn [map extract_children fold_left]. rewrite IH. f_equal.
  rewrite extract_line_first_glyph. reflexivity.
Qed.

(** ** Figure reconstructor, continued *)

Lemma figure_fold_filter (children : list LTObj) (st : FigureScan) :
  fold_result figure_step (filter is_char children) st
  = fold_result figure_step children st.
Proof.
  revert st. induction children as [| child rest IH]; intros st; [reflexivity |].
  destruct child; cbn [filter is_char fold_result figure_step bind];
    try apply IH.
  destruct (utf8_round_trip _); cbn [bind]; [apply IH | reflexivity].
Qed.

(** X3. [extract_figure_text] reads the glyphs of a figure and nothing
    else: leaving the other children out changes neither the tracker nor
    the text it returns, nor whether it returns. *)
Theorem figure_ignores_other_children (children : list LTObj) (largest_text : LargestText) :
  extract_figure_text (filter is_char children) largest_text
  = extract_figure_text children largest_text.
Proof.
  unfold extract_figure_text, figure_loop. now rewrite figure_fold_filter.
Qed.

Lemma figure_step_same_size_kept (st : FigureScan) (text : str)
    (x0 x1 y0' size' : float) :
  PrimFloat.eqb size' (f_size st) = true ->
  f_size (figure_advance st (LTChar text x0 x1 y0' size')) = f_size st.
Proof.
  intros H. unfold figure_advance. rewrite H. cbn [negb].
  destruct (f_state st); cbn zeta beta iota;
    repeat match goal with
           | |- context [if ?b then _ else _] => destruct b
           end; reflexivity.
Qed.

(** Over glyphs of size zero the loop, started at size zero, raises at the
    first glyph that cannot be encoded and otherwise flushes nothing. *)
Lemma figure_fold_zero_sized (children : list LTObj) (st : FigureScan) :
  f_size st = 0%float ->
  forallb zero_sized children = true ->
  match fold_result figure_step children st with
  | Ok st' =>
      existsb undecodable children = false
      /\ f_largest_text st' = f_largest_text st
      /\ f_text st' = f_text st
  | Raise e => existsb undecodable children = true /\ e = UnicodeEncodeError
  end.
Proof.
  revert st. induction children as [| child rest IH]; intros st Hsize Hall;
    [repeat split |].
  cbn [forallb] in Hall. apply andb_prop in Hall. destruct Hall as [Hchild Hrest].
  cbn [fold_result existsb].
  destruct (figure_step st child) as [st1 | e] eqn:Hstep; cbn [bind].
  - apply figure_step_returns in Hstep. destruct Hstep as [Hu Hst1].
    rewrite Hu. cbn [orb].
    assert (Hkeep : f_size st1 = 0%float /\ f_largest_text st1 = f_largest_text st
                    /\ f_text st1 = f_text st).
    { subst st1. destruct child as [text x0 x1 y0' size' | | | | |];
        cbn [is_char]; try (repeat split; assumption || reflexivity).
      cbn [zero_sized] in Hchild. rewrite <- Hsize in Hchild.
      destruct (figure_step_same_size st text x0 x1 y0' size' Hchild) as [E1 E2].
      pose proof (figure_step_same_size_kept st text x0 x1 y0' size' Hchild) as E3.
      repeat split; congruence. }
    destruct Hkeep as (K1 & K2 & K3).
    specialize (IH st1 K1 Hrest).
    destruct (fold_result figure_step rest st1) as [st' | e'].
    + destruct IH as (I0 & I1 & I2). repeat split; congruence.
    + exact IH.
  - apply figure_step_raises in Hstep. destruct Hstep as [Hu ->].
    rewrite Hu. split; reflexivity.
Qed.

(** X4. A figure whose glyphs all have size zero gives nothing: the glyph
    loop never sees a change of size, so no line is flushed, the tracker is
    returned as it was given and the text is empty. The text of every glyph
    is still encoded to UTF-8, so where one of them holds a lone surrogate
    the call raises [UnicodeEncodeError] instead of returning. *)
Theorem figure_of_zero_sizes_is_empty (children : list LTObj) (largest_text : LargestText) :
  forallb zero_sized children = true ->
  extract_figure_text children largest_text
  = if existsb undecodable children then Raise UnicodeEncodeError
    else Ok (largest_text, []).
Proof.
  intros H. unfold extract_figure_text, figure_loop.
  pose proof (figure_fold_zero_sized children (figure_start largest_text) eq_refl H)
    as Hfold.
  destruct (fold_result figure_step children (figure_start largest_text))
    as [st' | e]; cbn [bind].
  - destruct Hfold as (-> & E1 & E2). rewrite E1, E2. reflexivity.
  - destruct Hfold as (-> & ->). reflexivity.
Qed.

Lemma figure_of_zero_sizes_witness :
  extract_figure_text zero_size_figure initial_largest_text
  = Ok (initial_largest_text, [])
  /\ extract_figure_text surrogate_figure initial_largest_text
     = Raise UnicodeEncodeError.
Proof.
  split.
  - apply (figure_of_zero_sizes_is_empty zero_size_figure initial_largest_text).
    reflexivity.
  - apply (figure_of_zero_sizes_is_empty surrogate_figure
             initial_largest_text).
    reflexivity.
Defined.

(** ** Line-window selector *)

Lemma title_start_from_some (lo : str -> str) (lines : list str) (i k : nat) :
  title_start_from lo i lines = Some k ->
  i <= k
  /\ (exists line, nth_error lines (k - i) = Some line /\ title_line lo line = true)
  /\ (forall j line, j < k - i -> nth_error lines j = Some line ->
                     title_line lo line = false).
Proof.
  revert i. induction lines as [| l rest IH]; intros i H; [discriminate |].
  cbn [title_start_from] in H. fold (title_line lo l) in H.
  destruct (title_line lo l) eqn:Hl.
  - injection H as <-. rewrite Nat.sub_diag. repeat split; [lia | | intros; lia].
    exists l. split; [reflexivity | assumption].
  - apply IH in H. destruct H as (Hle & (line & Hnth & Hline) & Hbefore).
    split; [lia |]. split.
    + exists line. split; [| assumption].
      replace (k - i) with (S (k - S i)) by lia. exact Hnth.
    + intros j line' Hj Hnth'. destruct j as [| j].
      * cbn in Hnth'. injection Hnth' as <-. assumption.
      * apply (Hbefore j); [lia | exact Hnth'].
Qed.

Lemma title_start_from_none (lo : str -> str) (lines : list str) (i : nat) :
  title_start_from lo i lines = None <->
  (forall line, In line lines -> title_line lo line = false).
Proof.
  revert i. induction lines as [| l rest IH]; intros i.
  - split; [intros _ line [] | reflexivity].
  - cbn [title_start_from]. fold (title_line lo l).
    destruct (title_line lo l) eqn:Hl.
    + split; [discriminate |]. intros H. specialize (H l (or_introl eq_refl)).
      congruence.
    + rewrite IH. split.
      * intros H line [<- | Hin]; auto.
      * intros H line Hin. apply H. now right.
Qed.

(** X5. [title_start] is the index of the first line that is neither blank
    nor junk; when every line is blank or junk it is 0, the first line. *)
Theorem title_start_first (lo : str -> str) (lines : list str) :
  (forall j line, j < title_start lo lines -> nth_error lines j = Some line ->
                  title_line lo line = false)
  /\ ((exists line, In line lines /\ title_line lo line = true) ->
      exists line, nth_error lines (title_start lo lines) = Some line
                   /\ title_line lo line = true)
  /\ ((forall line, In line lines -> title_line lo line = false) ->
      title_start lo lines = 0).
Proof.
  unfold title_start.
  destruct (title_start_from lo 0 lines) as [k |] eqn:Hk.
  - apply title_start_from_some in Hk.
    destruct Hk as (_ & Hline & Hbefore). rewrite Nat.sub_0_r in *.
    split; [exact Hbefore |]. split; [intros _; exact Hline |].
    intros Hall. destruct Hline as (line & Hnth & Hline).
    apply nth_error_In in Hnth. rewrite (Hall line Hnth) in Hline. discriminate.
  - split; [intros; lia |]. split; [| reflexivity].
    intros (line & Hin & Hline).
    rewrite (proj1 (title_start_from_none lo lines 0) Hk line Hin) in Hline.
    discriminate.
Qed.

Lemma title_end_cases (lines : list str) (start : nat) :
  title_end lines start
  = if second_line_joins lines start then start + 2 else start + 1.
Proof.
  unfold title_end, second_line_joins, slice.
  replace (start + 2 + 1 - (start + 1)) with 2 by lia.
  rewrite <- (firstn_skipn (start + 1) lines) at 2 3 4.
  assert (Hlen : length (firstn (start + 1) lines) = start + 1
                 \/ skipn (start + 1) lines = []).
  { destruct (Nat.le_gt_cases (start + 1) (length lines)) as [Hle | Hgt].
    - left. now apply firstn_length_le.
    - right. apply skipn_all2. lia. }
  destruct Hlen as [Hlen | Hnil].
  - rewrite !app_nth2 by lia. rewrite length_app, Hlen.
    replace (start + 1 - (start + 1)) with 0 by lia.
    replace (start + 2 - (start + 1)) with 1 by lia.
    destruct (skipn (start + 1) lines) as [| l1 [| l2 rest]];
      cbn [firstn title_end_from nth length].
    + reflexivity.
    + destruct (empty_str l1); cbn [negb andb]; [reflexivity |].
      replace (start + 2 <? start + 1 + 1) with false
        by (symmetry; apply Nat.ltb_ge; lia).
      reflexivity.
    + destruct (empty_str l1); cbn [negb andb]; [reflexivity |].
      replace (start + 2 <? start + 1 + S (S (length rest))) with true
        by (symmetry; apply Nat.ltb_lt; lia).
      cbn [andb]. destruct (empty_str l2); [f_equal; lia | reflexivity].
  - rewrite Hnil, app_nil_r. cbn [firstn title_end_from].
    assert (Hshort : length lines <= start + 1).
    { rewrite <- (firstn_skipn (start + 1) lines), Hnil, app_nil_r.
      apply firstn_le_length. }
    rewrite firstn_all2 by assumption.
    replace (start + 2 <? length lines) with false
      by (symmetry; apply Nat.ltb_ge; lia).
    rewrite andb_false_r. reflexivity.
Qed.

(** X6. The title window is the line at [title_start], stripped; the next
    line is joined to it, after one space, exactly when that line is not
    blank and is followed by a blank line. *)
Theorem title_window_lines (lo : str -> str) (lines : list str) :
  title_window lo lines
  = strip (nth (title_start lo lines) lines [])
    ++ (if second_line_joins lines (title_start lo lines)
        then SPACE :: strip (nth (title_start lo lines + 1) lines [])
        else []).
Proof.
  unfold title_window. rewrite title_end_cases.
  generalize (title_start lo lines) as i. intros i.
  assert (Hstrip : strip [] = []) by reflexivity.
  destruct (second_line_joins lines i) eqn:Hjoin; unfold slice.
  - replace (i + 2 - i) with 2 by lia.
    unfold second_line_joins in Hjoin.
    apply andb_prop in Hjoin. destruct Hjoin as [Hjoin _].
    apply andb_prop in Hjoin. destruct Hjoin as [_ Hlen].
    apply Nat.ltb_lt in Hlen.
    rewrite <- (firstn_skipn i lines) at 2 3.
    assert (Hi : length (firstn i lines) = i) by (apply firstn_length_le; lia).
    rewrite !app_nth2 by lia. rewrite Hi.
    replace (i - i) with 0 by lia. replace (i + 1 - i) with 1 by lia.
    assert (Hs : length (skipn i lines) = length lines - i) by apply length_skipn.
    destruct (skipn i lines) as [| l0 [| l1 rest]]; cbn [length] in Hs; try lia.
    reflexivity.
  - replace (i + 1 - i) with 1 by lia. rewrite app_nil_r.
    destruct (Nat.le_gt_cases (length lines) i) as [Hout | Hin].
    + rewrite skipn_all2 by assumption. rewrite nth_overflow by assumption.
      reflexivity.
    + rewrite <- (firstn_skipn i lines) at 2.
      assert (Hi : length (firstn i lines) = i) by (apply firstn_length_le; lia).
      rewrite app_nth2 by lia. rewrite Hi. replace (i - i) with 0 by lia.
      assert (Hs : length (skipn i lines) = length lines - i) by apply length_skipn.
      destruct (skipn i lines) as [| l0 rest]; cbn [length] in Hs; try lia.
      reflexivity.
Qed.

(** ** Junk-line classifier *)

Lemma lstrip_incl (s : str) (c : N) : In c (lstrip s) -> In c s.
Proof.
  induction s as [| x s IH]; cbn [lstrip]; [auto |].
  destruct (isspace x); [intros H; right; auto | auto].
Qed.

Lemma lstrip_head (s : str) :
  lstrip s = [] \/ exists c rest, lstrip s = c :: rest /\ isspace c = false.
Proof.
  induction s as [| x s IH]; cbn [lstrip]; [now left |].
  destruct (isspace x) eqn:Hx; [exact IH | right; eauto].
Qed.

Lemma strip_incl (s : str) (c : N) : In c (strip s) -> In c s.
Proof.
  unfold strip, rstrip. intros H.
  apply in_rev in H. apply lstrip_incl in H. apply in_rev in H.
  now apply lstrip_incl in H.
Qed.

(** A stripped string is empty or holds a character that is not
    whitespace. *)
Lemma strip_visible (s : str) :
  strip s = [] \/ exists c, In c (strip s) /\ isspace c = false.
Proof.
  unfold strip, rstrip.
  destruct (lstrip_head (rev (lstrip s))) as [E | (c & rest & E & Hc)];
    rewrite E; [now left |].
  right. exists c. split; [| assumption].
  apply in_rev. rewrite rev_involutive. now left.
Qed.

Lemma filter_nil_iff {A} (f : A -> bool) (l : list A) :
  filter f l = [] <-> forall x, In x l -> f x = false.
Proof.
  induction l as [| a l IH]; cbn [filter].
  - split; [intros _ x [] | reflexivity].
  - destruct (f a) eqn:Ha.
    + split; [discriminate |]. intros H. specialize (H a (or_introl eq_refl)).
      congruence.
    + rewrite IH. split.
      * intros H x [<- | Hx]; auto.
      * intros H x Hx. apply H. now right.
Qed.

Lemma filter_length_pos {A} (f : A -> bool) (l : list A) (x : A) :
  In x l -> f x = true -> 0 < length (filter f l).
Proof.
  intros Hin Hx.
  assert (H : In x (filter f l)) by (apply filter_In; auto).
  destruct (filter f l); [contradiction | cbn [length]; lia].
Qed.

(** X7. A line without any ASCII letter is junk, whatever else it holds:
    digits only, as the source notes, and equally a title in a script
    other than Latin. *)
Theorem junk_line_without_letters (lo : str -> str) (line : str) :
  existsb ascii_letters line = false -> junk_line lo line = true.
Proof.
  intros Hno. unfold junk_line.
  assert (Hletters : filter ascii_letters (strip line) = []).
  { apply filter_nil_iff. intros c Hc. apply strip_incl in Hc.
    destruct (ascii_letters c) eqn:E; [| reflexivity].
    assert (existsb ascii_letters line = true); [| congruence].
    apply existsb_exists. eauto. }
  rewrite Hletters. change (2 * length (@nil N)) with 0.
  destruct (strip_visible line) as [E | (c & Hin & Hc)].
  - rewrite E. reflexivity.
  - assert (Hvisible : 0 < length (remove_chars
                                    (fun c => blank c || (c =? NEWLINE)%N)
                                    (strip line))).
    { unfold remove_chars. apply (filter_length_pos _ _ c Hin).
      apply negb_true_iff.
      destruct (blank c || (c =? NEWLINE)%N) eqn:Hf; [| reflexivity].
      assert (isspace c = true); [| congruence].
      unfold blank, SPACE, TAB, NEWLINE in Hf.
      repeat (apply orb_prop in Hf; destruct Hf as [Hf | Hf]);
        apply N.eqb_eq in Hf; subst c; reflexivity. }
    apply Nat.ltb_lt in Hvisible. rewrite Hvisible. apply orb_true_r.
Qed.

Lemma junk_line_without_letters_witness :
  junk_line (fun s => s) cyrillic_title = true.
Proof.
  apply (junk_line_without_letters (fun s => s) cyrillic_title). reflexivity.
Defined.

(** ** Strategy orchestrator, continued *)

(** X8. A title that [pdf_title] returns is a [str], and it is either a
    valid title or the base name of the path without its extension. *)
Theorem pdf_title_result (E : Env) (filename : str) (title : pyval) :
  pdf_title E filename = Ok title ->
  exists text,
    title = PyStr text
    /\ (valid_title_str (env_unicode_lower E) text = true
        \/ text = basename (fst (splitext filename))).
Proof.
  rewrite pdf_title_skips_metadata. unfold candidate, try_except.
  destruct (text_title E filename) as [t2 | e2]; cbn [bind valid_title].
  - destruct (valid_title_str (env_unicode_lower E) t2) eqn:Hv2.
    + intros H. injection H as <-. eauto.
    + destruct (pdftotext_title E filename) as [t3 | e3]; cbn [bind];
        [| discriminate].
      destruct (valid_title_str (env_unicode_lower E) t3) eqn:Hv3;
        intros H; injection H as <-; eauto.
  - destruct (pdftotext_title E filename) as [t3 | e3]; cbn [bind];
      [| discriminate].
    destruct (valid_title_str (env_unicode_lower E) t3) eqn:Hv3;
      intros H; injection H as <-; eauto.
Qed.

Lemma pdf_title_result_witness :
  exists text,
    PyStr (py "Vol 2: Parsing") = PyStr text
    /\ (valid_title_str (env_unicode_lower heading_document) text = true
        \/ text = basename (fst (splitext (py "paper.pdf")))).
Proof.
  apply (pdf_title_result heading_document (py "paper.pdf")
           (PyStr (py "Vol 2: Parsing"))).
  vm_compute. reflexivity.
Defined.

(** X9. The title does not depend on the document's metadata: whatever the
    metadata query answers or raises, [pdf_title] gives the same result. *)
Theorem pdf_title_ignores_metadata (E : Env)
    (docinfo : str -> result (option (list dict))) (filename : str) :
  pdf_title (with_docinfo E docinfo) filename = pdf_title E filename.
Proof.
  rewrite !pdf_title_skips_metadata. reflexivity.
Qed.



(** ** Paths *)

Lemma rfind_from_app (c : N) (a b : str) (i : nat) (last : option nat) :
  rfind_from i last c (a ++ b)
  = rfind_from (i + length a) (rfind_from i last c a) c b.
Proof.
  revert i last. induction a as [| x a IH]; intros i last; cbn [app length rfind_from].
  - now rewrite Nat.add_0_r.
  - rewrite IH. f_equal. lia.
Qed.

Lemma rfind_from_bounds (c : N) (s : str) (i : nat) (last : option nat) :
  rfind_from i last c s = last
  \/ exists k, rfind_from i last c s = Some k /\ i <= k < i + length s.
Proof.
  revert i last. induction s as [| x s IH]; intros i last; cbn [rfind_from length].
  - now left.
  - destruct (IH (S i) (if (x =? c)%N then Some i else last)) as [E | (k & E & Hk)].
    + rewrite E. destruct (x =? c)%N; [right | now left].
      exists i. split; [reflexivity | lia].
    + right. exists k. split; [assumption | lia].
Qed.

Lemma skipn_firstn_app {A} (n d : nat) (p : list A) :
  n <= d -> skipn n (firstn d p) ++ skipn d p = skipn n p.
Proof.
  intros Hle. rewrite <- (firstn_skipn d p) at 3. rewrite skipn_app.
  f_equal.
  destruct (Nat.le_gt_cases d (length p)) as [Hd | Hd].
  - rewrite firstn_length_le by assumption.
    replace (n - d) with 0 by lia. reflexivity.
  - rewrite skipn_all2 by lia. now rewrite skipn_nil.
Qed.

(** X11. The file-name strategy removes the extension and nothing else:
    the base name of the path without its extension, followed by the
    extension, is the base name of the path. *)
Theorem filename_strategy_round_trip (filename : str) :
  basename (fst (splitext filename)) ++ snd (splitext filename)
  = basename filename.
Proof.
  unfold splitext.
  pose proof (rfind_from_bounds DOT filename 0 None) as Hdot.
  fold (rfind DOT filename) in Hdot.
  destruct (_ && _) eqn:Hcond; cbn [fst snd]; [| apply app_nil_r].
  apply andb_prop in Hcond. destruct Hcond as [Hlt _].
  apply Z.ltb_lt in Hlt.
  destruct Hdot as [E | (d & E & Hd)].
  { rewrite E in Hlt. cbn [index_of] in Hlt.
    destruct (rfind SLASH filename); cbn [index_of] in Hlt; lia. }
  rewrite E in *. cbn [index_of] in *. rewrite Nat2Z.id.
  assert (Hsep : rfind SLASH (firstn d filename) = rfind SLASH filename).
  { unfold rfind at 2. rewrite <- (firstn_skipn d filename) at 2.
    rewrite rfind_from_app. fold (rfind SLASH (firstn d filename)).
    rewrite firstn_length_le by lia. cbn [Nat.add].
    destruct (rfind_from_bounds SLASH (skipn d filename) d
                (rfind SLASH (firstn d filename))) as [E' | (k & E' & Hk)];
      [now rewrite E' |].
    exfalso.
    assert (Hwhole : rfind SLASH filename = Some k).
    { unfold rfind at 1. rewrite <- (firstn_skipn d filename).
      rewrite rfind_from_app. fold (rfind SLASH (firstn d filename)).
      rewrite firstn_length_le by lia. exact E'. }
    rewrite Hwhole in Hlt. cbn [index_of] in Hlt. lia. }
  unfold basename. rewrite Hsep.
  apply skipn_firstn_app.
  destruct (rfind SLASH filename) as [k |]; cbn [index_of] in *; lia.
Qed.

Lemma rfind_absent (c : N) (s : str) : mem c s = false -> rfind c s = None.
Proof. apply rfind_from_absent. Qed.

(** The base name of [a ++ b] when [a] is empty or ends with a slash and
    [b] has none. *)
Lemma basename_app (a b : str) :
  mem SLASH b = false ->
  a = [] \/ ends_with_slash a = true ->
  basename (a ++ b) = b.
Proof.
  intros Hb Ha. unfold basename, rfind. rewrite rfind_from_app.
  rewrite (rfind_from_absent SLASH b _ _ Hb). cbn [Nat.add].
  destruct Ha as [-> | Ha]; [reflexivity |].
  unfold ends_with_slash in Ha.
  destruct (rev a) as [| c r] eqn:Hrev; [discriminate |].
  apply N.eqb_eq in Ha. subst c.
  assert (Ea : a = rev r ++ [SLASH]).
  { rewrite <- (rev_involutive a), Hrev. reflexivity. }
  rewrite Ea at 1. rewrite rfind_from_app. cbn [rfind_from].
  rewrite N.eqb_refl. cbn [index_of Nat.add].
  replace (Z.to_nat (Z.of_nat (length (rev r)) + 1)) with (length a)
    by (rewrite Ea, length_app; cbn [length]; lia).
  rewrite skipn_app, skipn_all, Nat.sub_diag. reflexivity.
Qed.

Lemma sanitize_ok_valid (translit : N -> str) (s r : str) :
  sanitize translit s = Ok r -> forallb valid_char r = true.
Proof.
  unfold sanitize.
  destruct (utf8_round_trip (truncate s)); cbn [bind]; [| discriminate].
  intros H. injection H as <-. apply forallb_filter.
Qed.

Lemma valid_no_slash (s : str) :
  forallb valid_char s = true -> mem SLASH s = false.
Proof.
  unfold mem. induction s as [| c s IH]; cbn [forallb existsb]; [reflexivity |].
  intros H. apply andb_prop in H. destruct H as [Hc Hs].
  rewrite (IH Hs), orb_false_r.
  apply N.eqb_neq. intros <-. discriminate Hc.
Qed.

Lemma replace_spaces_valid (s : str) :
  forallb valid_char s = true ->
  forallb valid_char (replace_spaces s) = true
  /\ mem SPACE (replace_spaces s) = false.
Proof.
  unfold mem, replace_spaces.
  induction s as [| c s IH]; cbn [forallb existsb map]; [auto |].
  intros H. apply andb_prop in H. destruct H as [Hc Hs].
  destruct (IH Hs) as [IH1 IH2]. rewrite IH1, IH2.
  destruct (c =? SPACE)%N eqn:Hsp.
  - split; reflexivity.
  - rewrite Hc. rewrite N.eqb_sym, Hsp. split; reflexivity.
Qed.

(** ** The command line *)

(** X12. The title the command line prints or renames to holds allowed
    characters only and, with [--underscore], no space; and the target of
    the renaming is the file of that name and extension [.pdf] directly
    under the directory [--dist]. *)
Theorem cli_rename_target (E : Env) (underscore : bool) (filename dist title : str) :
  cli_title E underscore filename = Ok title ->
  forallb valid_char title = true
  /\ (underscore = true -> mem SPACE title = false)
  /\ new_name dist title
     = dist
       ++ (if (length dist =? 0) || ends_with_slash dist then [] else [SLASH])
       ++ title ++ py ".pdf"
  /\ basename (new_name dist title) = title ++ py ".pdf".
Proof.
  unfold cli_title, main_title.
  destruct (pdf_title E filename) as [[text | b] | e]; cbn [bind];
    try discriminate.
  destruct (sanitize (env_translit E) _) as [r |] eqn:Hs; cbn [bind];
    [| discriminate].
  apply sanitize_ok_valid in Hs. intros H. injection H as <-.
  assert (Hvalid : forallb valid_char (if underscore then replace_spaces r else r) = true).
  { destruct underscore; [now apply replace_spaces_valid | assumption]. }
  set (title := if underscore then replace_spaces r else r) in *.
  assert (Hname : mem SLASH (title ++ py ".pdf") = false).
  { unfold mem. rewrite existsb_app. fold (mem SLASH title).
    rewrite (valid_no_slash title Hvalid). reflexivity. }
  assert (Hstart : starts_with_slash (title ++ py ".pdf") = false).
  { unfold mem in Hname.
    destruct (title ++ py ".pdf") as [| c rest]; [reflexivity |].
    cbn [existsb] in Hname. apply orb_false_iff in Hname.
    cbn [starts_with_slash]. rewrite N.eqb_sym. tauto. }
  split; [exact Hvalid |]. split.
  { intros ->. now apply replace_spaces_valid. }
  unfold new_name, path_join. rewrite Hstart.
  destruct ((length dist =? 0) || ends_with_slash dist) eqn:Hdist.
  - split; [reflexivity |]. apply basename_app; [assumption |].
    apply orb_prop in Hdist. destruct Hdist as [Hnil | Hend]; [left | now right].
    apply Nat.eqb_eq in Hnil. now destruct dist.
  - split; [reflexivity |].
    change (dist ++ SLASH :: title ++ py ".pdf")
      with (dist ++ [SLASH] ++ (title ++ py ".pdf")).
    rewrite app_assoc. apply basename_app; [assumption |].
    right. unfold ends_with_slash. rewrite rev_app_distr. reflexivity.
Qed.

Lemma cli_rename_target_witness :
  forallb valid_char (py "Vol_2_-_Parsing") = true
  /\ (true = true -> mem SPACE (py "Vol_2_-_Parsing") = false)
  /\ new_name (py "out") (py "Vol_2_-_Parsing")
     = py "out"
       ++ (if (length (py "out") =? 0) || ends_with_slash (py "out")
           then [] else [SLASH])
       ++ py "Vol_2_-_Parsing" ++ py ".pdf"
  /\ basename (new_name (py "out") (py "Vol_2_-_Parsing"))
     = py "Vol_2_-_Parsing" ++ py ".pdf".
Proof.
  apply (cli_rename_target heading_document true (py "paper.pdf") (py "out")
           (py "Vol_2_-_Parsing")).
  vm_compute. reflexivity.
Defined.

(** ** The spacing estimate *)

Local Open Scope float_scope.

Lemma ltb_not_nan_l (a b : float) : (a <? b) = true -> not_nan a.
Proof. intros H. apply ltb_rank in H. tauto. Qed.

Lemma clamp_calibrated (d : float) :
  not_nan d ->
  not_nan (if d <? 0.1 then 0.1 else d)
  /\ (0.1 <=? (if d <? 0.1 then 0.1 else d)) = true.
Proof.
  intros Hd. destruct (d <? 0.1) eqn:Hlt.
  - split; reflexivity.
  - split; [assumption |]. apply not_ltb_leb; [assumption | reflexivity | assumption].
Qed.

Lemma figure_advance_calibrated (st : FigureScan) (child : LTObj) :
  spacing_calibrated st -> spacing_calibrated (figure_advance st child).
Proof.
  intros [Hn Hd].
  destruct child as [text x0 x1 y0' size' | | | | |]; try (split; assumption).
  unfold figure_advance.
  destruct (negb (size' =? f_size st)).
  { split; [exact Hn | discriminate]. }
  set (ccd := abs (x0 - f_char_previous_x1 st)).
  destruct (f_state st) eqn:Hst.
  - (* INIT_X *)
    cbn [inside_word andb]. split; [exact Hn | discriminate].
  - (* INIT_D *)
    set (d1 := if (0 <? f_char_distance st) && (ccd <? f_char_distance st * 2.5)
               then ccd else f_char_distance st).
    assert (Hd1 : not_nan d1).
    { unfold d1. destruct (_ && _) eqn:Hc; [| exact Hn].
      apply andb_prop in Hc. destruct Hc as [_ Hc].
      eapply ltb_not_nan_l; eassumption. }
    destruct (clamp_calibrated d1 Hd1) as [Hn2 Hd2].
    set (d2 := if d1 <? 0.1 then 0.1 else d1) in *.
    cbn [inside_word andb].
    destruct (x1 <? f_char_previous_x1 st).
    { split; [exact Hn2 | discriminate]. }
    destruct (d2 * 8.5 <? ccd).
    { split; [exact Hn2 | intros _; exact Hd2]. }
    destruct ((d2 <? ccd) && (ccd <? d2 * 2.5)) eqn:Hc.
    + apply andb_prop in Hc. destruct Hc as [Hc _].
      split; cbn [f_char_distance f_state].
      * eapply ltb_not_nan; eassumption.
      * intros _. apply ltb_leb. eapply leb_ltb_trans; eassumption.
    + split; [exact Hn2 | intros _; exact Hd2].
  - (* INSIDE_WORD *)
    specialize (Hd eq_refl). cbn [inside_word andb].
    destruct (x1 <? f_char_previous_x1 st).
    { split; [exact Hn | discriminate]. }
    destruct (f_char_distance st * 8.5 <? ccd).
    { split; [exact Hn | intros _; exact Hd]. }
    destruct ((f_char_distance st <? ccd) && (ccd <? f_char_distance st * 2.5))
      eqn:Hc.
    + apply andb_prop in Hc. destruct Hc as [Hc _].
      split; cbn [f_char_distance f_state].
      * eapply ltb_not_nan; eassumption.
      * intros _. apply ltb_leb. eapply leb_ltb_trans; eassumption.
    + split; [exact Hn | intros _; exact Hd].
Qed.

Lemma figure_fold_calibrated (children : list LTObj) (st st' : FigureScan) :
  fold_result figure_step children st = Ok st' ->
  spacing_calibrated st -> spacing_calibrated st'.
Proof.
  revert st. induction children as [| child rest IH]; intros st Hfold H;
    cbn [fold_result] in Hfold.
  - now injection Hfold as <-.
  - destruct (figure_step st child) as [st1 |] eqn:Hstep; cbn [bind] in Hfold;
      [| discriminate].
    apply (IH st1 Hfold).
    apply figure_step_returns in Hstep. destruct Hstep as [_ ->].
    destruct (is_char child); [now apply figure_advance_calibrated | exact H].
Qed.

(** X13. Whenever the figure loop is inside a word, its estimate of the
    distance between characters is at least 0.1: the first calibration
    clamps it there and later ones only raise it. The state [st] is the one
    the loop has reached after the children read so far. *)
Theorem figure_spacing_at_least_tenth (children : list LTObj)
    (largest_text : LargestText) (st : FigureScan) :
  figure_loop children largest_text = Ok st ->
  f_state st = INSIDE_WORD ->
  (0.1 <=? f_char_distance st) = true.
Proof.
  intros Hloop H.
  assert (Hc : spacing_calibrated st).
  { apply (figure_fold_calibrated children (figure_start largest_text) st Hloop).
    split; [reflexivity | discriminate]. }
  destruct Hc as [_ Hc]. now apply Hc.
Qed.

Lemma figure_spacing_witness :
  (0.1 <=? f_char_distance (figure_advance
                              (figure_advance (figure_start initial_largest_text)
                                 (LTChar (py "H") 10 18 700 12))
                              (LTChar (py "i") 18.5 21 700 12))) = true.
Proof.
  apply (figure_spacing_at_least_tenth figure_hi initial_largest_text);
    reflexivity.
Defined.

Local Close Scope float_scope.

(** ** The closeness test *)

Lemma binary_round_abs (s : bool) (m : positive) (e : Z) :
  SFabs (binary_round prec emax s m e) = SFabs (binary_round prec emax false m e).
Proof.
  unfold binary_round. destruct (shl_align m e _) as [mz ez].
  unfold binary_round_aux.
  destruct (shr_fexp prec emax (Z.pos mz) ez loc_Exact) as [mrs' e'].
  destruct (shr_fexp prec emax _ e' loc_Exact) as [mrs'' e''].
  destruct (shr_m mrs''); [| destruct (Z.leb e'' _) |]; reflexivity.
Qed.

Lemma binary_normalize_abs_opp (m e : Z) :
  SFabs (binary_normalize prec emax (- m) e false)
  = SFabs (binary_normalize prec emax m e false).
Proof.
  destruct m as [| p | p]; cbn [Z.opp binary_normalize]; [reflexivity | |];
    now rewrite (binary_round_abs true).
Qed.

(** The distance of two numbers does not depend on their order. *)
Lemma SFsub_abs_sym (x y : spec_float) :
  SFabs (SF64sub x y) = SFabs (SF64sub y x).
Proof.
  destruct x as [sx | sx | | sx mx ex], y as [sy | sy | | sy my ey];
    try reflexivity;
    try (destruct sx; reflexivity);
    try (destruct sy; reflexivity);
    try (destruct sx, sy; reflexivity).
  unfold SF64sub, SFsub. rewrite (Z.min_comm ey ex).
  rewrite <- binary_normalize_abs_opp. f_equal. f_equal. lia.
Qed.

Local Open Scope float_scope.

Lemma abs_sub_sym (a b : float) : abs (a - b) = abs (b - a).
Proof.
  apply Prim2SF_inj. rewrite !abs_spec, !sub_spec. apply SFsub_abs_sym.
Qed.

Lemma abs_non_negative (a : float) :
  not_nan a -> non_negative (Prim2SF (abs a)) = true.
Proof.
  intros H. apply not_nan_spec in H. rewrite abs_spec.
  destruct (Prim2SF a); [reflexivity | reflexivity | congruence | reflexivity].
Qed.

(** Among the numbers that are not negative, the rank tells the number. *)
Lemma rank_inj (x y : spec_float) :
  non_negative x = true -> non_negative y = true -> rank x = rank y -> x = y.
Proof.
  destruct x as [[|] | [|] | | [|] mx ex], y as [[|] | [|] | | [|] my ey];
    cbn; try discriminate; try reflexivity.
  intros _ _ H. injection H as -> ->. reflexivity.
Qed.

Lemma lex_compare_antisym (a b : Z * Z * Z) :
  lex_compare b a = CompOpp (lex_compare a b).
Proof.
  destruct a as [[a1 a2] a3], b as [[b1 b2] b3]. unfold lex_compare.
  rewrite (Z.compare_antisym a1 b1), (Z.compare_antisym a2 b2),
    (Z.compare_antisym a3 b3).
  destruct (a1 ?= b1)%Z, (a2 ?= b2)%Z, (a3 ?= b3)%Z; reflexivity.
Qed.

Lemma lex_compare_eq (a b : Z * Z * Z) : lex_compare a b = Eq -> a = b.
Proof.
  destruct a as [[a1 a2] a3], b as [[b1 b2] b3]. unfold lex_compare.
  destruct (Z.compare_spec a1 b1), (Z.compare_spec a2 b2),
    (Z.compare_spec a3 b3); try discriminate. congruence.
Qed.

Lemma py_max_sym (p q : float) :
  non_negative (Prim2SF p) = true -> non_negative (Prim2SF q) = true ->
  py_max p q = py_max q p.
Proof.
  intros Hp Hq. unfold py_max.
  assert (Np : Prim2SF p <> S754_nan) by (intros E; rewrite E in Hp; discriminate).
  assert (Nq : Prim2SF q <> S754_nan) by (intros E; rewrite E in Hq; discriminate).
  rewrite !ltb_spec. unfold SFltb.
  rewrite (SFcompare_rank _ _ Np Nq), (SFcompare_rank _ _ Nq Np).
  rewrite (lex_compare_antisym (rank (Prim2SF p)) (rank (Prim2SF q))).
  destruct (lex_compare (rank (Prim2SF p)) (rank (Prim2SF q))) eqn:Hpq;
    cbn [CompOpp]; try reflexivity.
  apply Prim2SF_inj. apply rank_inj; try assumption.
  now apply lex_compare_eq.
Qed.

Lemma sub_nan_l (a b : float) : Prim2SF a = S754_nan -> Prim2SF (abs (a - b)) = S754_nan.
Proof.
  intros H. rewrite abs_spec, sub_spec, H. reflexivity.
Qed.

Lemma sub_nan_r (a b : float) : Prim2SF b = S754_nan -> Prim2SF (abs (a - b)) = S754_nan.
Proof.
  intros H. rewrite abs_spec, sub_spec, H. destruct (Prim2SF a); reflexivity.
Qed.

Lemma leb_nan_l (d m : float) : Prim2SF d = S754_nan -> (d <=? m) = false.
Proof. intros H. rewrite leb_spec, H. reflexivity. Qed.

(** X14. The closeness test is symmetric: [is_close(a, b)] and
    [is_close(b, a)] agree for all numbers, NaN and the infinities
    included. *)
Theorem is_close_sym (a b : float) : is_close a b = is_close b a.
Proof.
  unfold is_close. rewrite (abs_sub_sym b a).
  destruct (Prim2SF a) as [sa | sa | | sa ma ea] eqn:Ea;
    try (destruct (Prim2SF b) as [sb | sb | | sb mb eb] eqn:Eb;
         [| | rewrite !(leb_nan_l _ _ (sub_nan_r a b Eb)); reflexivity |];
         (rewrite (py_max_sym (abs a) (abs b)); [reflexivity | |];
          apply abs_non_negative; apply not_nan_spec; congruence)).
  rewrite !(leb_nan_l _ _ (sub_nan_l a b Ea)). reflexivity.
Qed.

Local Close Scope float_scope.

(** ** Lines of one size *)

Lemma shr_1_non_negative (mrs : shr_record) :
  (0 <= shr_m mrs)%Z -> (0 <= shr_m (shr_1 mrs))%Z.
Proof.
  destruct mrs as [m r s]. cbn [shr_m].
  destruct m as [| [p | p |] | [p | p |]]; cbn; lia.
Qed.

Lemma iter_pos_keeps {A} (P : A -> Prop) (f : A -> A) :
  (forall x, P x -> P (f x)) -> forall p x, P x -> P (iter_pos f p x).
Proof.
  intros Hf. induction p as [p IH | p IH |]; intros x Hx; cbn [iter_pos]; auto.
Qed.

Lemma shr_fexp_non_negative (m e : Z) (l : location) :
  (0 <= m)%Z -> (0 <= shr_m (fst (shr_fexp prec emax m e l)))%Z.
Proof.
  intros Hm. unfold shr_fexp, shr.
  assert (H0 : (0 <= shr_m (shr_record_of_loc m l))%Z).
  { destruct l as [| [| |]]; exact Hm. }
  destruct (_ - e)%Z; cbn [fst]; try exact H0.
  apply (iter_pos_keeps (fun mrs => (0 <= shr_m mrs)%Z)); [| exact H0].
  exact shr_1_non_negative.
Qed.

Lemma round_nearest_even_non_negative (m : Z) (l : location) :
  (0 <= m)%Z -> (0 <= round_nearest_even m l)%Z.
Proof.
  intros Hm. destruct l as [| [| |]]; cbn [round_nearest_even];
    try destruct (Z.even m); lia.
Qed.

(** Rounding a number that is not negative gives one. *)
Lemma binary_round_aux_non_negative (m e : Z) (l : location) :
  (0 <= m)%Z -> non_negative (binary_round_aux prec emax false m e l) = true.
Proof.
  intros Hm. unfold binary_round_aux.
  pose proof (shr_fexp_non_negative m e l Hm) as H1.
  destruct (shr_fexp prec emax m e l) as [mrs' e']. cbn [fst] in H1.
  pose proof (shr_fexp_non_negative
                (round_nearest_even (shr_m mrs') (loc_of_shr_record mrs')) e'
                loc_Exact (round_nearest_even_non_negative _ _ H1)) as H2.
  destruct (shr_fexp prec emax _ e' loc_Exact) as [mrs'' e'']. cbn [fst] in H2.
  destruct (shr_m mrs''); [reflexivity | destruct (Z.leb e'' _); reflexivity | lia].
Qed.

Local Open Scope float_scope.

(** The tolerance scaled by a positive finite number is not negative. *)
Lemma tolerance_times_positive (m : positive) (e : Z) :
  non_negative (SF64mul (Prim2SF TOLERANCE) (S754_finite false m e)) = true.
Proof.
  rewrite Prim2SF_tolerance. unfold SF64mul, SFmul. cbn [xorb].
  apply binary_round_aux_non_negative. lia.
Qed.

Lemma positive_finite (s : float) :
  (0 <? s) = true -> (s <? infinity) = true ->
  exists m e, Prim2SF s = S754_finite false m e.
Proof.
  rewrite !ltb_spec. change (Prim2SF 0) with (S754_zero false).
  change (Prim2SF infinity) with (S754_infinity false).
  unfold SFltb, SFcompare.
  destruct (Prim2SF s) as [sg | sg | | sg m e]; try destruct sg;
    try discriminate. eauto.
Qed.

Lemma eqb_positive_finite (a b : float) (m : positive) (e : Z) :
  Prim2SF b = S754_finite false m e -> (a =? b) = true -> a = b.
Proof.
  intros Hb H. apply Prim2SF_inj. rewrite Hb.
  rewrite eqb_spec, Hb in H. unfold SFeqb, SFcompare in H.
  destruct (Prim2SF a) as [sg | sg | | sg ma ea]; try destruct sg;
    try discriminate.
  destruct (Z.compare_spec ea e); try discriminate. subst ea.
  rewrite Pos.compare_cont_spec in H. cbn [Pos.switch_Eq] in H.
  destruct (Pos.compare_spec ma m); try discriminate. now subst ma.
Qed.

(** X15. A line whose size equals the size of the tracked text, a positive
    finite number, is appended to it: it neither replaces the contents nor
    is dropped. *)
Theorem same_size_line_appended (line : str) (y0' size' : float) (st : LargestText) :
  (0 <? size st) = true ->
  (size st <? infinity) = true ->
  (size' =? size st) = true ->
  update_largest_text line y0' size' st
  = {| contents := contents st ++ sub_final_newline line;
       y0 := y0';
       size := size st |}.
Proof.
  intros Hpos Hfin Heq.
  destruct (positive_finite _ Hpos Hfin) as (m & e & Es).
  rewrite (eqb_positive_finite size' (size st) m e Es Heq).
  assert (Hzero : (size st =? 0) = false).
  { rewrite eqb_spec, Es. reflexivity. }
  assert (Hsub : Prim2SF (size st - size st) = S754_zero false).
  { rewrite sub_spec, Es. unfold SF64sub, SFsub. rewrite Z.sub_diag. reflexivity. }
  assert (Hgt : (TOLERANCE <? size st - size st) = false).
  { rewrite ltb_spec, Hsub, Prim2SF_tolerance. reflexivity. }
  assert (Hclose : is_close (size st) (size st) = true).
  { unfold is_close, py_max.
    assert (Emax : (if abs (size st) <? abs (size st) then abs (size st)
                    else abs (size st)) = abs (size st))
      by (destruct (abs (size st) <? abs (size st)); reflexivity).
    rewrite Emax, leb_spec, abs_spec, Hsub, mul_spec, abs_spec, Es.
    cbn [SFabs].
    pose proof (tolerance_times_positive m e) as Hnn.
    unfold SFleb, SFcompare.
    destruct (SF64mul (Prim2SF TOLERANCE) (S754_finite false m e))
      as [sg | sg | | sg mm em]; try destruct sg; try discriminate; reflexivity. }
  unfold update_largest_text. rewrite Hzero, andb_false_r. cbn [andb].
  rewrite Hgt, Hclose. reflexivity.
Qed.

Lemma same_size_line_appended_witness :
  update_largest_text (py "Networks") 698 12
    {| contents := py "Neural "; y0 := 700; size := 12 |}
  = {| contents := py "Neural " ++ sub_final_newline (py "Networks");
       y0 := 698;
       size := 12 |}.
Proof.
  apply (same_size_line_appended (py "Networks") 698 12
           {| contents := py "Neural "; y0 := 700; size := 12 |});
    reflexivity.
Defined.

Local Close Scope float_scope.

(** ** The enumeration of parsing states *)

Lemma dict_get_set_same {V} (d : list (str * V)) (key : str) (value : V) :
  dict_get (dict_set d key value) key = Some value.
Proof.
  induction d as [| [k v] rest IH]; cbn [dict_set dict_get].
  - assert (E : str_eqb key key = true) by now apply str_eqb_eq.
    now rewrite E.
  - destruct (str_eqb key k) eqn:E; cbn [dict_get]; rewrite E; [reflexivity | exact IH].
Qed.

Lemma dict_get_set_other {V} (d : list (str * V)) (key key' : str) (value : V) :
  key' <> key -> dict_get (dict_set d key value) key' = dict_get d key'.
Proof.
  intros Hne. induction d as [| [k v] rest IH]; cbn [dict_set dict_get].
  - destruct (str_eqb key' key) eqn:E; [| reflexivity].
    apply str_eqb_eq in E. contradiction.
  - destruct (str_eqb key k) eqn:E; cbn [dict_get].
    + apply str_eqb_eq in E. subst k.
      destruct (str_eqb key' key) eqn:E'; [| reflexivity].
      apply str_eqb_eq in E'. contradiction.
    + destruct (str_eqb key' k); [reflexivity | exact IH].
Qed.

Lemma dict_fold_keep {V} (pairs : list (str * V)) (d : list (str * V)) (name : str) :
  ~ In name (map fst pairs) ->
  dict_get (fold_left (fun d kv => dict_set d (fst kv) (snd kv)) pairs d) name
  = dict_get d name.
Proof.
  revert d. induction pairs as [| [k v] pairs IH]; intros d Hk; [reflexivity |].
  cbn [fold_left fst snd]. rewrite IH.
  - apply dict_get_set_other. intros ->. apply Hk. now left.
  - intros Hin. apply Hk. now right.
Qed.

Lemma dict_fold_get (names : list str) (start : nat) (d : list (str * nat))
    (i : nat) (name : str) :
  NoDup names ->
  nth_error names i = Some name ->
  dict_get
    (fold_left (fun d kv => dict_set d (fst kv) (snd kv))
       (combine names (seq start (length names))) d) name
  = Some (start + i).
Proof.
  revert start d i. induction names as [| n rest IH]; intros start d i Hnd Hnth.
  - destruct i; discriminate.
  - inversion Hnd as [| ? ? Hnotin Hrest]; subst.
    cbn [length seq combine fold_left fst snd].
    destruct i as [| i].
    + cbn in Hnth. injection Hnth as ->.
      rewrite Nat.add_0_r.
      rewrite dict_fold_keep; [apply dict_get_set_same |].
      intros Hin. apply Hnotin.
      clear - Hin. revert Hin. generalize (S start).
      induction rest as [| r rest IHr]; intros s Hin; [contradiction |].
      cbn [length seq combine map fst] in Hin.
      destruct Hin as [-> | Hin]; [now left | right; eapply IHr; eassumption].
    + cbn in Hnth. rewrite (IH (S start) _ i Hrest Hnth). f_equal. lia.
Qed.

(** X16. [make_parsing_state] numbers its names in order: among names
    without repetition, and with no keyword argument, the name at place [i]
    gets the value [i], so different states never compare equal. *)
Theorem make_parsing_state_values (sequential : list str) (i : nat) (name : str) :
  NoDup sequential ->
  nth_error sequential i = Some name ->
  dict_get (make_parsing_state sequential []) name = Some i.
Proof.
  intros Hnd Hnth. unfold make_parsing_state, dict_of. cbn [fold_left].
  now rewrite (dict_fold_get sequential 0 [] i name Hnd Hnth).
Qed.

Lemma make_parsing_state_witness :
  dict_get CHAR_PARSING_STATE (py "INSIDE_WORD") = Some 2.
Proof.
  apply (make_parsing_state_values
           [py "INIT_X"; py "INIT_D"; py "INSIDE_WORD"] 2 (py "INSIDE_WORD")).
  - repeat constructor; cbn; intuition discriminate.
  - reflexivity.
Defined.

(** ** The command line: words *)

Lemma split_join (sep : N) (words : list str) :
  words <> [] ->
  Forall (fun w => mem sep w = false) words ->
  split sep (join [sep] words) = words.
Proof.
  intros Hne Hall. induction Hall as [| w ws Hw Hws IH]; [contradiction |].
  assert (Hword : forall rest, split sep (w ++ sep :: rest) = w :: split sep rest).
  { intros rest. clear - Hw. unfold mem in Hw.
    induction w as [| c w IHw]; cbn [app split].
    - now rewrite N.eqb_refl.
    - cbn [existsb] in Hw. apply orb_false_iff in Hw. destruct Hw as [Hc Hw].
      rewrite N.eqb_sym in Hc. rewrite Hc, (IHw Hw). reflexivity. }
  destruct ws as [| w' ws'].
  - cbn [join]. clear - Hw. unfold mem in Hw.
    induction w as [| c w IHw]; [reflexivity |].
    cbn [existsb] in Hw. apply orb_false_iff in Hw. destruct Hw as [Hc Hw].
    cbn [split]. rewrite N.eqb_sym in Hc. rewrite Hc, (IHw Hw). reflexivity.
  - rewrite join_cons. cbn [app]. rewrite Hword. f_equal.
    apply IH. discriminate.
Qed.

Lemma split_whitespace_from_words (word : str) (s : str) :
  mem SPACE word = false ->
  Forall (fun w => mem SPACE w = false) (split_whitespace_from word s).
Proof.
  revert word. induction s as [| c s IH]; intros word Hw; cbn [split_whitespace_from].
  - destruct word; [constructor | constructor; [assumption | constructor]].
  - destruct (isspace c) eqn:Hc.
    + destruct word; [now apply IH | constructor; [assumption | now apply IH]].
    + apply IH. unfold mem in *. rewrite existsb_app, Hw. cbn [existsb orb].
      rewrite orb_false_r. apply N.eqb_neq. intros <-. discriminate Hc.
Qed.

(** X17. On the command line the title reaches [sanitize] with its words
    joined by single spaces, so the cut of [sanitize] keeps the first 20
    whitespace-delimited words of the title, and then the first 200
    characters of their joining. *)
Theorem cli_truncation_keeps_words (title : str) :
  truncate (join [SPACE] (split_whitespace title))
  = (if MAX_CHARS <? length (join [SPACE] (firstn MAX_WORDS (split_whitespace title)))
     then firstn MAX_CHARS
            (join [SPACE] (firstn MAX_WORDS (split_whitespace title)))
     else join [SPACE] (firstn MAX_WORDS (split_whitespace title))).
Proof.
  unfold truncate.
  destruct (split_whitespace title) as [| w ws] eqn:Hwords; [reflexivity |].
  rewrite split_join; [reflexivity | discriminate |].
  rewrite <- Hwords. now apply split_whitespace_from_words.
Qed.
